(** * Scene partitioning and sampler-argument assembly

    A shallow embedding of the two experiment configurations
    [experiments/object_manip_thor_ppo.py] (class
    [ObjectManipThorPPOExperimentConfig]) and
    [experiments/object_nav_thor_a2c.py] (class
    [ObjectNavThorPPOExperimentConfig]).

    Python objects that can be shared and mutated (the class-level scene
    lists and the [ENV_ARGS] dictionary, and the lists and dictionaries the
    methods create) live in a heap addressed by locations; a method is a
    function from the state before the call to the state after it together
    with either the raised exception or the returned value.  What [print]
    writes is kept in the state as well.

    Numbers: Python's [int] is [Z].  A [float64] value of [numpy] or of
    Python is the rational [Q] it denotes, and every floating-point
    operation rounds its exact result to the nearest number with a 53-bit
    significand, a tie going to the even significand.  The exponent is not
    bounded: overflow to infinity and subnormal numbers are outside the
    model, as are the limits of memory.  The conversion to [int32] drops
    the fractional part and wraps around modulo 2^32. *)

From Stdlib Require Import ZArith QArith Qround Qpower Qabs Lia Lqa.
From stdpp Require Import base strings list gmap pretty.

Local Open Scope Z_scope.

(** ** Exceptions, values, heap *)

(** The built-in exceptions the modelled code can raise.  [ConfigurationError]
    is the error class named by the specification; no statement of either
    source file raises it. *)
Inductive exn : Type :=
  | ZeroDivisionError
  | IndexError
  | ValueError
  | TypeError
  | ConfigurationError.

#[global] Instance exn_eq_dec : EqDecision exn.
Proof. solve_decision. Defined.

(** Values stored in the environment-argument dictionaries. *)
Inductive val : Type :=
  | VNone
  | VInt (z : Z)
  | VStr (s : string).

#[global] Instance val_eq_dec : EqDecision val.
Proof. solve_decision. Defined.

(** Heap objects: a list of scene names or a dictionary with string keys. *)
Inductive obj : Type :=
  | OList (xs : list string)
  | ODict (d : gmap string val).

Definition loc := nat.

Record state : Type := mkState {
  heap : list obj;          (* object at location [l] is [heap !! l] *)
  stdout : list string      (* the lines printed so far *)
}.

(** ** The state-and-exception monad *)

Definition M (A : Type) : Type := state → state * (exn + A).

Definition ret {A} (a : A) : M A := λ σ, (σ, inr a).

Definition raise {A} (e : exn) : M A := λ σ, (σ, inl e).

Definition bind {A B} (m : M A) (f : A → M B) : M B :=
  λ σ, match m σ with
       | (σ', inr a) => f a σ'
       | (σ', inl e) => (σ', inl e)
       end.

Declare Scope py_scope.
Delimit Scope py_scope with py.
Notation "x <- m ;; k" := (bind m (λ x, k))
  (at level 100, m at next level, right associativity) : py_scope.
Notation "m ;; k" := (bind m (λ _, k))
  (at level 100, right associativity) : py_scope.
Local Open Scope py_scope.

(** A pure computation that may raise. *)
Definition lift {A} (r : exn + A) : M A :=
  match r with
  | inl e => raise e
  | inr a => ret a
  end.

(** A new object is placed at the first unused location. *)
Definition alloc (o : obj) : M loc :=
  λ σ, (mkState (heap σ ++ [o]) (stdout σ), inr (length (heap σ))).

(** Reading an object as a list; anything else at the location is a type
    error, as [len] or slicing of a non-sequence is in Python. *)
Definition load_list (l : loc) : M (list string) :=
  λ σ, match heap σ !! l with
       | Some (OList xs) => (σ, inr xs)
       | _ => (σ, inl TypeError)
       end.

Definition load_dict (l : loc) : M (gmap string val) :=
  λ σ, match heap σ !! l with
       | Some (ODict d) => (σ, inr d)
       | _ => (σ, inl TypeError)
       end.

Definition store (l : loc) (o : obj) : M unit :=
  λ σ, (mkState (<[l := o]> (heap σ)) (stdout σ), inr tt).

(** [print(s)] *)
Definition print (s : string) : M unit :=
  λ σ, (mkState (heap σ) (stdout σ ++ [s]), inr tt).

(** ** Python and numpy primitives *)

(** [a % b] on integers: the remainder takes the sign of the divisor, which
    is what [Z.modulo] does. *)
Definition py_mod (a b : Z) : exn + Z :=
  if b =? 0 then inl ZeroDivisionError else inr (a `mod` b).

(** [a // b] on integers: floor division. *)
Definition py_floordiv (a b : Z) : exn + Z :=
  if b =? 0 then inl ZeroDivisionError else inr (a `div` b).

(** Rounding to the nearest integer, a tie going to the even neighbour. *)
Definition rint (x : Q) : Z :=
  let f := Qfloor x in
  match (x - inject_Z f ?= 1 # 2)%Q with
  | Lt => f
  | Gt => f + 1
  | Eq => if Z.even f then f else f + 1
  end.

(** The binary exponent of [x <> 0]: the [e] with [2^e <= |x| < 2^(e+1)].
    The difference of the two logarithms is [e] or [e + 1]. *)
Definition exponent (x : Q) : Z :=
  let e := Z.log2 (Z.abs (Qnum x)) - Z.log2 (Z.pos (Qden x)) in
  if Qle_bool (2 ^ e) (Qabs x) then e else e - 1.

(** The [float64] nearest to [x]: [x] is scaled so that its significand
    lies in [2^52 .. 2^53], rounded to an integer, and scaled back. *)
Definition float64 (x : Q) : Q :=
  if Qeq_bool x 0 then 0%Q
  else
    let e := exponent x in
    Qred (inject_Z (rint (x * 2 ^ (52 - e))) * 2 ^ (e - 52)).

(** [float(z)] of an integer. *)
Definition float (z : Z) : Q := float64 (inject_Z z).

(** The arithmetic of [float64]: the exact result, rounded. *)
Definition fadd (x y : Q) : Q := float64 (x + y).
Definition fsub (x y : Q) : Q := float64 (x - y).
Definition fmul (x y : Q) : Q := float64 (x * y).
Definition fdiv (x y : Q) : Q := float64 (x / y).

(** [a / b] on integers: true division, the quotient rounded once. *)
Definition py_truediv (a b : Z) : exn + Q :=
  if b =? 0 then inl ZeroDivisionError
  else inr (float64 (inject_Z a / inject_Z b)).

(** [math.ceil] *)
Definition ceil (x : Q) : Z := Qceiling x.

(** [xs * k] on a list: [k] copies of [xs], none when [k <= 0]. *)
Definition py_list_mul {A} (xs : list A) (k : Z) : list A :=
  concat (replicate (Z.to_nat k) xs).

(** A slice bound is brought into [0 .. len]: negative bounds count from the
    end, bounds beyond the end are clamped. *)
Definition slice_bound (len : Z) (i : Z) : Z :=
  if i <? 0 then Z.max 0 (i + len) else Z.min i len.

(** [xs[lo:hi]], where an omitted bound is [None]. *)
Definition py_slice {A} (xs : list A) (lo hi : option Z) : list A :=
  let len := Z.of_nat (length xs) in
  let a := match lo with Some i => slice_bound len i | None => 0 end in
  let b := match hi with Some i => slice_bound len i | None => len end in
  take (Z.to_nat (b - a)) (drop (Z.to_nat a) xs).

(** [xs[i]] on a list or an array: negative indices count from the end, an
    index outside [-len .. len-1] raises [IndexError]. *)
Definition py_getitem {A} (xs : list A) (i : Z) : exn + A :=
  let len := Z.of_nat (length xs) in
  let j := if i <? 0 then i + len else i in
  if (0 <=? j) && (j <? len) then
    match xs !! Z.to_nat j with
    | Some x => inr x
    | None => inl IndexError
    end
  else inl IndexError.

(** [len(x)] of an optional list argument: [len(None)] is a type error. *)
Definition py_len_opt {A} (xs : option (list A)) : exn + Z :=
  match xs with
  | Some l => inr (Z.of_nat (length l))
  | None => inl TypeError
  end.

(** [xs[i]] of an optional list argument. *)
Definition py_getitem_opt {A} (xs : option (list A)) (i : Z) : exn + A :=
  match xs with
  | Some l => py_getitem l i
  | None => inl TypeError
  end.

(** ["0.%d" % d] *)
Definition format_display (d : Z) : string := "0." +:+ pretty d.

(** [np.linspace(start, stop, num, endpoint=True)]: [num] evenly spaced
    points, the last one set to [stop]; a negative [num] is a [ValueError].
    The points are computed in [float64] as numpy does: [arange(0, num)]
    times the rounded step, plus [start]. *)
Definition np_linspace (start stop num : Z) : exn + list Q :=
  if num <? 0 then inl ValueError
  else
    let div := num - 1 in
    let start := float start in
    let stop := float stop in
    let delta := fsub stop start in
    let y := float <$> seqZ 0 num in                   (* arange(0, num) *)
    let y :=
      if 0 <? div then
        let step := fdiv delta (float div) in
        if Qeq_bool step 0
        then (λ v, fmul (fdiv v (float div)) delta) <$> y
        else (λ v, fmul v step) <$> y
      else (λ v, fmul v delta) <$> y in
    let y := (λ v, fadd v start) <$> y in
    let y :=
      if 1 <? num
      then <[Z.to_nat (num - 1) := stop]> y            (* y[-1] = stop *)
      else y in
    inr y.

(** [np.round]: to the nearest integer, a tie goes to the even neighbour. *)
Definition np_round (x : Q) : Q := inject_Z (rint x).

(** [.astype(np.int32)] on a float: the fractional part is dropped, and a
    value outside [-2^31 .. 2^31 - 1] wraps around. *)
Definition astype_int32 (x : Q) : Z :=
  let t := if Qle_bool 0 x then Qfloor x else Qceiling x in
  (t + 2 ^ 31) `mod` 2 ^ 32 - 2 ^ 31.

(** ** The result dictionary and the configuration class *)

(** The value bound to the key ["scene_period"]. *)
Inductive period : Type :=
  | PManual                (* the string "manual" *)
  | PEvery (n : Z).

(** The dictionary returned by the sampler-argument methods, one field per
    key.  ["scenes"] and ["env_args"] hold references to heap objects;
    ["scene_period"] and ["max_tasks"] are absent until they are assigned. *)
Record sampler_args : Type := mkArgs {
  scenes : loc;
  object_types : list string;
  env_args : loc;
  max_steps : Z;
  sensors : list string;
  action_space : Z;                (* gym.spaces.Discrete(n) *)
  seed : option Z;
  deterministic_cudnn : bool;
  scene_period : option period;
  max_tasks : option Z
}.

(** The class attributes read through [self].  The scene lists and
    [ENV_ARGS] are mutable objects and are held by reference; sensors are
    represented by their names, and [action_names] stands for the result of
    the task class's [action_names()] / [class_action_names()]. *)
Record experiment_config : Type := mkConfig {
  OBJECT_TYPES : list string;
  TRAIN_SCENES : loc;
  VALID_SCENES : loc;
  TEST_SCENES : loc;
  SENSORS : list string;
  ENV_ARGS : loc;
  MAX_STEPS : Z;
  VALID_SAMPLES_IN_SCENE : Z;
  TEST_SAMPLES_IN_SCENE : Z;
  action_names : list string
}.

(** The dictionary [machine_params] returns, one field per key. *)
Record machine : Type := mkMachine {
  nprocesses : Z;
  gpu_ids : list Z
}.

(** The exception [machine_params] raises, with its message. *)
Inductive mode_error : Type :=
  | NotImplementedError (msg : string).

(** ** Code shared by the two configuration classes

    [_partition_inds] and [_get_sampler_args_for_scene_split] are the same
    in both files, up to the task class whose action names are counted. *)

(** [np.round(np.linspace(0, n, num_parts + 1, endpoint=True)).astype(np.int32)] *)
Definition _partition_inds (n num_parts : Z) : exn + list Z :=
  match np_linspace 0 n (num_parts + 1) with
  | inl e => inl e
  | inr y => inr (astype_int32 <$> (np_round <$> y))
  end.

Definition warning_divisible : string :=
  "Warning: oversampling some of the scenes to feed all processes. You can avoid this by setting a number of workers divisible by the number of scenes".

Definition warning_divisor : string :=
  "Warning: oversampling some of the scenes to feed all processes. You can avoid this by setting a number of workers divisor of the number of scenes".

(** [len(scenes)] for a list held by reference. *)
Definition len (l : loc) : M Z :=
  xs <- load_list l ;; ret (Z.of_nat (length xs)).

(** The [if total_processes > len(scenes): ... else: ...] statement that
    opens [_get_sampler_args_for_scene_split].  Its result is the list the
    local name [scenes] is bound to afterwards: a new list in the first
    branch, the caller's list in the second. *)
Definition normalize_scenes (scenes : loc) (total_processes : Z) : M loc :=
  n <- len scenes ;;
  if n <? total_processes then
    n <- len scenes ;;
    r <- lift (py_mod total_processes n) ;;
    (if negb (r =? 0) then print warning_divisible else ret tt) ;;
    (* scenes = scenes * int(ceil(total_processes / len(scenes))) *)
    xs <- load_list scenes ;;
    n <- len scenes ;;
    q <- lift (py_truediv total_processes n) ;;
    scenes <- alloc (OList (py_list_mul xs (ceil q))) ;;
    (* scenes = scenes[: total_processes * (len(scenes) // total_processes)] *)
    xs <- load_list scenes ;;
    n <- len scenes ;;
    k <- lift (py_floordiv n total_processes) ;;
    alloc (OList (py_slice xs None (Some (total_processes * k))))
  else
    n <- len scenes ;;
    r <- lift (py_mod n total_processes) ;;
    (if negb (r =? 0) then print warning_divisor else ret tt) ;;
    ret scenes.

Definition _get_sampler_args_for_scene_split (self : experiment_config)
    (scenes : loc) (process_ind total_processes : Z)
    (seeds : option (list Z)) (deterministic_cudnn : bool) : M sampler_args :=
  scenes <- normalize_scenes scenes total_processes ;;
  n <- len scenes ;;
  inds <- lift (_partition_inds n total_processes) ;;
  (* "scenes": scenes[inds[process_ind] : inds[process_ind + 1]] *)
  xs <- load_list scenes ;;
  a <- lift (py_getitem inds process_ind) ;;
  b <- lift (py_getitem inds (process_ind + 1)) ;;
  assigned <- alloc (OList (py_slice xs (Some a) (Some b))) ;;
  (* "seed": seeds[process_ind] if seeds is not None else None *)
  seed <- match seeds with
          | Some s => v <- lift (py_getitem s process_ind) ;; ret (Some v)
          | None => ret None
          end ;;
  ret {| scenes := assigned;
         object_types := OBJECT_TYPES self;
         env_args := ENV_ARGS self;
         max_steps := MAX_STEPS self;
         sensors := SENSORS self;
         action_space := Z.of_nat (length (action_names self));
         seed := seed;
         deterministic_cudnn := deterministic_cudnn;
         scene_period := None;
         max_tasks := None |}.

(** Field assignments [res[key] = v] on the result dictionary. *)
Definition set_scene_period (p : period) (res : sampler_args) : sampler_args :=
  mkArgs (scenes res) (object_types res) (env_args res) (max_steps res)
         (sensors res) (action_space res) (seed res) (deterministic_cudnn res)
         (Some p) (max_tasks res).

Definition set_max_tasks (n : Z) (res : sampler_args) : sampler_args :=
  mkArgs (scenes res) (object_types res) (env_args res) (max_steps res)
         (sensors res) (action_space res) (seed res) (deterministic_cudnn res)
         (scene_period res) (Some n).

Definition set_env_args (l : loc) (res : sampler_args) : sampler_args :=
  mkArgs (scenes res) (object_types res) l (max_steps res)
         (sensors res) (action_space res) (seed res) (deterministic_cudnn res)
         (scene_period res) (max_tasks res).

(** [d[key] = v] on a dictionary held by reference. *)
Definition dict_setitem (l : loc) (key : string) (v : val) : M unit :=
  d <- load_dict l ;; store l (ODict (<[key := v]> d)).

(** [d.update(other)]: every entry of [other] is written into [d]. *)
Definition dict_update (l other : loc) : M unit :=
  d <- load_dict l ;;
  o <- load_dict other ;;
  store l (ODict (o ∪ d)).

(** ** [experiments/object_manip_thor_ppo.py] *)

Module ObjectManipThorPPO.

Definition SCREEN_SIZE : Z := 224.

(** The class-level mutable objects, in the order the class body creates
    them: the three scene lists, then [ENV_ARGS]. *)
Definition initial : state :=
  mkState
    [ OList ["FloorPlan1_physics"];
      OList ["FloorPlan1_physics"];
      OList ["FloorPlan1_physics"];
      ODict (<["player_screen_height" := VInt SCREEN_SIZE]>
              (<["player_screen_width" := VInt SCREEN_SIZE]>
                (<["quality" := VStr "Very Low"]> ∅))) ]
    [].

(** [actions] is what [ObjectManipTask.class_action_names()] returns; the
    task class is defined outside these files. *)
Definition cls (actions : list string) : experiment_config :=
  {| OBJECT_TYPES := ["Bowl"];
     TRAIN_SCENES := 0%nat;
     VALID_SCENES := 1%nat;
     TEST_SCENES := 2%nat;
     SENSORS := ["RGBSensorThor"; "GoalObjectTypeThorSensor";
                 "HandPickUpThorSensor"; "CurrentArmStateThorSensor"];
     ENV_ARGS := 3%nat;
     MAX_STEPS := 128;
     VALID_SAMPLES_IN_SCENE := 5;
     TEST_SAMPLES_IN_SCENE := 2;
     action_names := actions |}.

(** The three lines that end each of the three methods:
    [res["env_args"] = {}], [res["env_args"].update(self.ENV_ARGS)] and
    [res["env_args"]["x_display"] = ("0.%d" % devices[process_ind %
    len(devices)]) if len(devices) > 0 else None]. *)
Definition attach_env_args (self : experiment_config) (process_ind : Z)
    (devices : option (list Z)) (res : sampler_args) : M sampler_args :=
  d <- alloc (ODict ∅) ;;
  let res := set_env_args d res in
  dict_update (env_args res) (ENV_ARGS self) ;;
  n <- lift (py_len_opt devices) ;;
  x <- (if 0 <? n then
          n <- lift (py_len_opt devices) ;;
          k <- lift (py_mod process_ind n) ;;
          dev <- lift (py_getitem_opt devices k) ;;
          ret (VStr (format_display dev))
        else ret VNone) ;;
  dict_setitem (env_args res) "x_display" x ;;
  ret res.

Definition train_task_sampler_args (self : experiment_config)
    (process_ind total_processes : Z) (devices seeds : option (list Z))
    (deterministic_cudnn : bool) : M sampler_args :=
  res <- _get_sampler_args_for_scene_split self (TRAIN_SCENES self)
           process_ind total_processes seeds deterministic_cudnn ;;
  let res := set_scene_period PManual res in
  attach_env_args self process_ind devices res.

Definition valid_task_sampler_args (self : experiment_config)
    (process_ind total_processes : Z) (devices seeds : option (list Z))
    (deterministic_cudnn : bool) : M sampler_args :=
  res <- _get_sampler_args_for_scene_split self (VALID_SCENES self)
           process_ind total_processes seeds deterministic_cudnn ;;
  let res := set_scene_period (PEvery (VALID_SAMPLES_IN_SCENE self)) res in
  n <- len (scenes res) ;;
  let res := set_max_tasks (VALID_SAMPLES_IN_SCENE self * n) res in
  attach_env_args self process_ind devices res.

Definition test_task_sampler_args (self : experiment_config)
    (process_ind total_processes : Z) (devices seeds : option (list Z))
    (deterministic_cudnn : bool) : M sampler_args :=
  res <- _get_sampler_args_for_scene_split self (TEST_SCENES self)
           process_ind total_processes seeds deterministic_cudnn ;;
  let res := set_scene_period (PEvery (TEST_SAMPLES_IN_SCENE self)) res in
  n <- len (scenes res) ;;
  let res := set_max_tasks (TEST_SAMPLES_IN_SCENE self * n) res in
  attach_env_args self process_ind devices res.

(** [machine_params(cls, mode="train", **kwargs)]: the alternatives that
    depend on [torch.cuda.is_available()] are commented out in this file. *)
Definition machine_params (mode : string) : mode_error + machine :=
  if String.eqb mode "train" then
    inr {| nprocesses := 1; gpu_ids := [] |}
  else if String.eqb mode "valid" then
    inr {| nprocesses := 1; gpu_ids := [] |}
  else if String.eqb mode "test" then
    inr {| nprocesses := 1; gpu_ids := [] |}
  else inl (NotImplementedError "mode must be 'train', 'valid', or 'test'.").

End ObjectManipThorPPO.

(** ** [experiments/object_nav_thor_a2c.py] *)

Module ObjectNavThorA2C.

Definition SCREEN_SIZE : Z := 224.

Definition SCENE_PERIOD : Z := 10.

Definition initial : state :=
  mkState
    [ OList ["FloorPlan1_physics"];
      OList ["FloorPlan1_physics"];
      OList ["FloorPlan1_physics"];
      ODict (<["player_screen_height" := VInt SCREEN_SIZE]>
              (<["player_screen_width" := VInt SCREEN_SIZE]>
                (<["quality" := VStr "Very Low"]> ∅))) ]
    [].

(** [actions] is what [ObjectNavTask.action_names()] returns; the task
    class is defined outside these files. *)
Definition cls (actions : list string) : experiment_config :=
  {| OBJECT_TYPES := ["Tomato"];
     TRAIN_SCENES := 0%nat;
     VALID_SCENES := 1%nat;
     TEST_SCENES := 2%nat;
     SENSORS := ["RGBSensorThor"; "GoalObjectTypeThorSensor"];
     ENV_ARGS := 3%nat;
     MAX_STEPS := 128;
     VALID_SAMPLES_IN_SCENE := 5;
     TEST_SAMPLES_IN_SCENE := 2;
     action_names := actions |}.

(** The line that ends each of the three methods:
    [res["env_args"]["x_display"] = "0.%d" % devices[0] if len(devices) > 0
    else None].  [res["env_args"]] is still the object the scene-split
    method put there, the class's [ENV_ARGS]. *)
Definition attach_x_display (devices : option (list Z))
    (res : sampler_args) : M sampler_args :=
  n <- lift (py_len_opt devices) ;;
  x <- (if 0 <? n then
          dev <- lift (py_getitem_opt devices 0) ;;
          ret (VStr (format_display dev))
        else ret VNone) ;;
  dict_setitem (env_args res) "x_display" x ;;
  ret res.

Definition train_task_sampler_args (self : experiment_config)
    (process_ind total_processes : Z) (devices seeds : option (list Z))
    (deterministic_cudnn : bool) : M sampler_args :=
  res <- _get_sampler_args_for_scene_split self (TRAIN_SCENES self)
           process_ind total_processes seeds deterministic_cudnn ;;
  let res := set_scene_period (PEvery SCENE_PERIOD) res in
  attach_x_display devices res.

Definition valid_task_sampler_args (self : experiment_config)
    (process_ind total_processes : Z) (devices seeds : option (list Z))
    (deterministic_cudnn : bool) : M sampler_args :=
  res <- _get_sampler_args_for_scene_split self (VALID_SCENES self)
           process_ind total_processes seeds deterministic_cudnn ;;
  let res := set_scene_period (PEvery (VALID_SAMPLES_IN_SCENE self)) res in
  n <- len (scenes res) ;;
  let res := set_max_tasks (VALID_SAMPLES_IN_SCENE self * n) res in
  attach_x_display devices res.

Definition test_task_sampler_args (self : experiment_config)
    (process_ind total_processes : Z) (devices seeds : option (list Z))
    (deterministic_cudnn : bool) : M sampler_args :=
  res <- _get_sampler_args_for_scene_split self (TEST_SCENES self)
           process_ind total_processes seeds deterministic_cudnn ;;
  let res := set_scene_period (PEvery (TEST_SAMPLES_IN_SCENE self)) res in
  n <- len (scenes res) ;;
  let res := set_max_tasks (TEST_SAMPLES_IN_SCENE self * n) res in
  attach_x_display devices res.

(** [machine_params(cls, mode="train", **kwargs)]; [cuda] is the value of
    [torch.cuda.is_available()]. *)
Definition machine_params (cuda : bool) (mode : string) : mode_error + machine :=
  if String.eqb mode "train" then
    inr {| nprocesses := if negb cuda then 3 else 18;
           gpu_ids := if negb cuda then [] else [0] |}
  else if String.eqb mode "valid" then
    inr {| nprocesses := 1;
           gpu_ids := if negb cuda then [] else [1] |}
  else if String.eqb mode "test" then
    inr {| nprocesses := 1;
           gpu_ids := if negb cuda then [] else [0] |}
  else inl (NotImplementedError "mode must be 'train', 'valid', or 'test'.").

End ObjectNavThorA2C.

(** ** Observations and abbreviations used in the statements *)

(** A boundary index as an integer: rounding followed by the conversion. *)
Definition round_index (x : Q) : Z := astype_int32 (np_round x).

(** The [i]-th point of [np.linspace(0, n, P + 1)] for [P > 0], as
    [np_linspace] computes it: the last point is [stop], the others are
    [i * step + start]. *)
Definition linspace_point (n P i : Z) : Q :=
  if i =? P then float n
  else
    let delta := fsub (float n) (float 0) in
    let step := fdiv delta (float P) in
    fadd (if Qeq_bool step 0
          then fmul (fdiv (float i) (float P)) delta
          else fmul (float i) step)
         (float 0).

(** The [i]-th boundary of [n] items cut into [P] parts. *)
Definition boundary (n P i : Z) : Z := round_index (linspace_point n P i).

(** The rounding unit of [float64], [2^-53]. *)
Definition u64 : Q := 1 # 9007199254740992.

(** The state after [if b: print(w)]. *)
Definition emit (b : bool) (w : string) (σ : state) : state :=
  if b then mkState (heap σ) (stdout σ ++ [w]) else σ.

(** The value of [seeds[i] if seeds is not None else None]. *)
Definition seeded (seeds : option (list Z)) (i : Z) : exn + option Z :=
  match seeds with
  | Some s => match py_getitem s i with inl e => inl e | inr v => inr (Some v) end
  | None => inr None
  end.

(** The list bound to ["scenes"] in a returned dictionary. *)
Definition assigned_scenes (r : state * (exn + sampler_args)) : option (list string) :=
  match r with
  | (σ', inr res) =>
      match heap σ' !! scenes res with
      | Some (OList l) => Some l
      | _ => None
      end
  | _ => None
  end.

(** The dictionary held at a location. *)
Definition dict_at (σ : state) (l : loc) : option (gmap string val) :=
  match heap σ !! l with
  | Some (ODict d) => Some d
  | _ => None
  end.

(** The entry [res["env_args"]["x_display"]] of a returned dictionary;
    [None] when nothing was returned or the key is absent. *)
Definition x_display (r : state * (exn + sampler_args)) : option val :=
  match r with
  | (σ', inr res) =>
      match dict_at σ' (env_args res) with
      | Some d => d !! "x_display"
      | None => None
      end
  | _ => None
  end.

(** The call raised an exception. *)
Definition fails {A} (r : state * (exn + A)) : Prop := ∃ e, r.2 = inl e.

(** Every list object of [σ] is still there, unchanged, in [σ']. *)
Definition lists_kept (σ σ' : state) : Prop :=
  ∀ l xs, heap σ !! l = Some (OList xs) → heap σ' !! l = Some (OList xs).

Definition keeps_lists {A} (m : M A) : Prop := ∀ σ, lists_kept σ (m σ).1.

(** Every object of [σ] is still there, unchanged, in [σ']: the heap only
    grew. *)
Definition heap_extends (σ σ' : state) : Prop :=
  ∃ new, heap σ' = heap σ ++ new.

(** A state in which a caller holds one more list, at the location
    [length (heap σ)]. *)
Definition with_list (σ : state) (xs : list string) : state :=
  mkState (heap σ ++ [OList xs]) (stdout σ).

(** The class state of [ObjectManipThorPPO] with a caller's list of five
    scenes, held at location 4. *)
Definition five_scenes : state :=
  with_list ObjectManipThorPPO.initial ["s0"; "s1"; "s2"; "s3"; "s4"].

(** The same with a caller's list of one scene. *)
Definition one_scene : state :=
  with_list ObjectManipThorPPO.initial ["s0"].

(** A list of [n] scene names. *)
Definition scene_names (n : Z) : list string := replicate (Z.to_nat n) "s".

(** The same with a caller's list of 335544321 scenes. *)
Definition many_scenes : state :=
  with_list ObjectManipThorPPO.initial (scene_names 335544321).

(** The same with a caller's empty list. *)
Definition no_scene : state :=
  with_list ObjectManipThorPPO.initial [].

(** The value the methods of [ObjectManipThorPPO] bind to ["x_display"]:
    ["0.%d" % devices[process_ind % len(devices)]], or [None] for an empty
    list. *)
Definition display_by_process (devices : list Z) (process_ind : Z) : val :=
  match devices with
  | [] => VNone
  | _ => VStr (format_display
                 (devices !!! Z.to_nat (process_ind `mod` Z.of_nat (length devices))))
  end.

(** The value the methods of [ObjectNavThorA2C] bind to ["x_display"]:
    ["0.%d" % devices[0]], or [None] for an empty list. *)
Definition display_first (devices : list Z) : val :=
  match devices with
  | [] => VNone
  | d :: _ => VStr (format_display d)
  end.

(** A computation that writes no object that exists when it starts. *)
Definition only_allocates {A} (m : M A) : Prop := ∀ σ, heap_extends σ (m σ).1.

(** The exception raised for an empty scene list or a process count that is
    not positive. *)
Definition invalid_split_error (P : Z) : exn :=
  if P <? -1 then ValueError
  else if P =? -1 then IndexError
  else ZeroDivisionError.

(** A computation that prints nothing. *)
Definition silent {A} (m : M A) : Prop := ∀ σ, stdout (m σ).1 = stdout σ.

(** The lines a call of the scene split prints for [L] scenes and [P]
    processes: one warning, or nothing. *)
Definition expected_warning (L P : Z) : list string :=
  if L <? P then
    if P `mod` L =? 0 then [] else [warning_divisible]
  else
    if L `mod` P =? 0 then [] else [warning_divisor].

(** * Properties *)

(** ** Running the monad *)

(** A bind continues with the value and the state of its first part. *)
Lemma bind_run {A B} (m : M A) (f : A → M B) σ σ' a :
  m σ = (σ', inr a) → bind m f σ = f a σ'.
Proof. intros H. unfold bind. by rewrite H. Qed.

(** An exception in the first part ends the bind, in the state reached. *)
Lemma bind_fail {A B} (m : M A) (f : A → M B) σ σ' e :
  m σ = (σ', inl e) → bind m f σ = (σ', inl e).
Proof. intros H. unfold bind. by rewrite H. Qed.

(** A bind that returns: its first part returned too. *)
Lemma bind_inr {A B} (m : M A) (f : A → M B) σ σ' b :
  bind m f σ = (σ', inr b) →
  ∃ σ1 a, m σ = (σ1, inr a) ∧ f a σ1 = (σ', inr b).
Proof.
  unfold bind. destruct (m σ) as [σ1 [e|a]]; [discriminate|].
  intros H. by exists σ1, a.
Qed.

Lemma lift_run {A} (a : A) σ : lift (inr a) σ = (σ, inr a).
Proof. done. Qed.

Lemma lift_inr {A} (r : exn + A) σ σ' a :
  lift r σ = (σ', inr a) → r = inr a ∧ σ' = σ.
Proof.
  destruct r as [e|a']; cbv [lift raise ret]; intros H; [discriminate|].
  by injection H as -> ->.
Qed.

Lemma alloc_run o σ :
  alloc o σ = (mkState (heap σ ++ [o]) (stdout σ), inr (length (heap σ))).
Proof. done. Qed.

Lemma load_list_run σ l xs :
  heap σ !! l = Some (OList xs) → load_list l σ = (σ, inr xs).
Proof. intros H. unfold load_list. by rewrite H. Qed.

Lemma len_run σ l xs :
  heap σ !! l = Some (OList xs) → len l σ = (σ, inr (Z.of_nat (length xs))).
Proof. intros H. unfold len. by rewrite (bind_run _ _ _ _ _ (load_list_run _ _ _ H)). Qed.

(** [len] reads only. *)
Lemma len_state l σ : (len l σ).1 = σ.
Proof.
  unfold len, bind, load_list. by destruct (heap σ !! l) as [[?|?]|].
Qed.

Lemma len_inr l σ σ' n : len l σ = (σ', inr n) → σ' = σ.
Proof. intros H. by rewrite <- (len_state l σ), H. Qed.

Lemma heap_emit b w σ : heap (emit b w σ) = heap σ.
Proof. by destruct b. Qed.

Lemma warn_run (b : bool) w σ :
  (if b then print w else ret tt) σ = (emit b w σ, inr tt).
Proof. by destruct b. Qed.

Lemma dict_setitem_run l key v σ d :
  heap σ !! l = Some (ODict d) →
  dict_setitem l key v σ
    = (mkState (<[l := ODict (<[key := v]> d)]> (heap σ)) (stdout σ), inr tt).
Proof. intros H. unfold dict_setitem, bind, load_dict. by rewrite H. Qed.

Lemma dict_update_run l other σ d o :
  heap σ !! l = Some (ODict d) →
  heap σ !! other = Some (ODict o) →
  dict_update l other σ
    = (mkState (<[l := ODict (o ∪ d)]> (heap σ)) (stdout σ), inr tt).
Proof.
  intros Hl Ho. unfold dict_update, bind, load_dict. by rewrite Hl, Ho.
Qed.

Lemma dict_at_insert σ l d :
  (l < length (heap σ))%nat →
  dict_at (mkState (<[l := ODict d]> (heap σ)) (stdout σ)) l = Some d.
Proof. intros H. unfold dict_at. simpl. by rewrite list_lookup_insert_eq. Qed.

(** Writing the object allocated last. *)
Lemma insert_last {A} (l : list A) (x y : A) :
  <[length l := y]> (l ++ [x]) = l ++ [y].
Proof. rewrite insert_app_r_alt, Nat.sub_diag by lia. done. Qed.

(** ** Python primitives *)

Lemma py_mod_nonzero a b : b ≠ 0 → py_mod a b = inr (a `mod` b).
Proof. intros H. unfold py_mod. by destruct (Z.eqb_spec b 0). Qed.

Lemma py_floordiv_nonzero a b : b ≠ 0 → py_floordiv a b = inr (a `div` b).
Proof. intros H. unfold py_floordiv. by destruct (Z.eqb_spec b 0). Qed.

Lemma py_truediv_nonzero a b :
  b ≠ 0 → py_truediv a b = inr (float64 (inject_Z a / inject_Z b)).
Proof. intros H. unfold py_truediv. by destruct (Z.eqb_spec b 0). Qed.

Lemma length_py_list_mul {A} (xs : list A) (k : Z) :
  length (py_list_mul xs k) = (Z.to_nat k * length xs)%nat.
Proof.
  unfold py_list_mul. induction (Z.to_nat k) as [|m IH]; simpl; [done|].
  rewrite length_app, IH. lia.
Qed.

(** Indexing inside the list. *)
Lemma py_getitem_lookup {A} (xs : list A) (i : nat) x :
  xs !! i = Some x → py_getitem xs (Z.of_nat i) = inr x.
Proof.
  intros H. pose proof (lookup_lt_Some _ _ _ H).
  unfold py_getitem.
  destruct (Z.ltb_spec (Z.of_nat i) 0); [lia|].
  destruct (Z.leb_spec 0 (Z.of_nat i)); [|lia].
  destruct (Z.ltb_spec (Z.of_nat i) (Z.of_nat (length xs))); [|lia].
  simpl. by rewrite Nat2Z.id, H.
Qed.

(** Indexing at or beyond the length. *)
Lemma py_getitem_out {A} (xs : list A) (i : Z) :
  Z.of_nat (length xs) ≤ i → py_getitem xs i = inl IndexError.
Proof.
  intros H. unfold py_getitem.
  destruct (Z.ltb_spec i 0); [lia|].
  destruct (Z.ltb_spec i (Z.of_nat (length xs))); [lia|].
  by rewrite andb_false_r.
Qed.

Lemma py_getitem_nil {A} (i : Z) : py_getitem (@nil A) i = inl IndexError.
Proof.
  unfold py_getitem. simpl length.
  match goal with |- context [andb ?a ?b] => destruct (andb a b) eqn:E end;
    [|done].
  apply andb_prop in E as [?%Z.leb_le ?%Z.ltb_lt]. lia.
Qed.

(** [devices[k % len(devices)]] is defined for a non-empty list. *)
Lemma py_getitem_mod (devices : list Z) (pi : Z) :
  devices ≠ [] →
  py_getitem devices (pi `mod` Z.of_nat (length devices))
    = inr (devices !!! Z.to_nat (pi `mod` Z.of_nat (length devices))).
Proof.
  intros Hne.
  assert (0 < Z.of_nat (length devices)) by (destruct devices; simpl; [done|lia]).
  pose proof (Z.mod_pos_bound pi (Z.of_nat (length devices)) ltac:(lia)) as Hm.
  set (k := pi `mod` _) in *.
  destruct (lookup_lt_is_Some_2 devices (Z.to_nat k)) as [v Hv]; [lia|].
  rewrite (list_lookup_total_correct _ _ _ Hv).
  rewrite <- (Z2Nat.id k) at 1 by lia. by apply py_getitem_lookup.
Qed.

(** A slice between two bounds in order and within the list. *)
Lemma py_slice_segment {A} (xs : list A) (a b : Z) :
  0 ≤ a ≤ b → b ≤ Z.of_nat (length xs) →
  py_slice xs (Some a) (Some b) =
    take (Z.to_nat b - Z.to_nat a) (drop (Z.to_nat a) xs).
Proof.
  intros Ha Hb. unfold py_slice, slice_bound.
  destruct (Z.ltb_spec a 0); [lia|]. destruct (Z.ltb_spec b 0); [lia|].
  rewrite !Z.min_l by lia. f_equal; lia.
Qed.

(** [xs[:b]] for a non-negative bound. *)
Lemma py_slice_prefix {A} (xs : list A) (b : Z) :
  0 ≤ b → py_slice xs None (Some b) = take (Z.to_nat b) xs.
Proof.
  intros Hb. unfold py_slice, slice_bound.
  destruct (Z.ltb_spec b 0); [lia|].
  rewrite Z.sub_0_r. change (drop (Z.to_nat 0) xs) with xs.
  destruct (Z.min_spec b (Z.of_nat (length xs))) as [[_ ->]|[Hle ->]]; [done|].
  rewrite Nat2Z.id. rewrite !take_ge by lia. done.
Qed.

(** Consecutive segments between non-decreasing cut points, put together,
    are the prefix up to the last cut point. *)
Lemma concat_segments {A} (xs : list A) (b : nat → nat) (P : nat) :
  b 0%nat = 0%nat →
  (∀ i, (i < P)%nat → (b i ≤ b (S i))%nat) →
  concat ((λ i, take (b (S i) - b i) (drop (b i) xs)) <$> seq 0 P) = take (b P) xs.
Proof.
  intros H0. induction P as [|P IH]; intros Hmono.
  - simpl. by rewrite H0.
  - rewrite seq_S, fmap_app, concat_app, IH by (intros; apply Hmono; lia).
    simpl. rewrite app_nil_r, take_take_drop. f_equal.
    specialize (Hmono P). lia.
Qed.

Lemma seeded_in_range s i :
  0 ≤ i < Z.of_nat (length s) →
  ∃ v, s !! Z.to_nat i = Some v ∧ seeded (Some s) i = inr (Some v).
Proof.
  intros Hi. destruct (lookup_lt_is_Some_2 s (Z.to_nat i)) as [v Hv]; [lia|].
  exists v. split; [done|]. unfold seeded.
  rewrite <- (Z2Nat.id i) by lia. by rewrite (py_getitem_lookup _ _ _ Hv).
Qed.

Lemma seeded_ok seeds (P : nat) i :
  (∀ s, seeds = Some s → (P ≤ length s)%nat) → 0 ≤ i < Z.of_nat P →
  ∃ sd, seeded seeds i = inr sd.
Proof.
  intros Hs Hi. destruct seeds as [s|]; [|by eexists].
  specialize (Hs s eq_refl).
  destruct (seeded_in_range s i) as (v & _ & ->); [lia|]. by eexists.
Qed.

(** ** Floating-point numbers *)

Lemma inject_Z_minus (x y : Z) : inject_Z (x - y) = (inject_Z x - inject_Z y)%Q.
Proof. unfold Z.sub, Qminus. by rewrite inject_Z_plus, inject_Z_opp. Qed.

Lemma rint_bounds (x : Q) :
  (x - (1 # 2) <= inject_Z (rint x) <= x + (1 # 2))%Q.
Proof.
  unfold rint.
  pose proof (Qfloor_le x) as Hlo. pose proof (Qlt_floor x) as Hhi.
  rewrite inject_Z_plus in Hhi. change (inject_Z 1) with 1%Q in Hhi.
  destruct (x - inject_Z (Qfloor x) ?= 1 # 2)%Q eqn:Hc.
  - apply Qeq_alt in Hc.
    destruct (Z.even (Qfloor x)); rewrite ?inject_Z_plus;
      change (inject_Z 1) with 1%Q; lra.
  - apply Qlt_alt in Hc. lra.
  - apply Qgt_alt in Hc. rewrite inject_Z_plus. change (inject_Z 1) with 1%Q. lra.
Qed.

Lemma rint_inject (z : Z) : rint (inject_Z z) = z.
Proof.
  unfold rint. rewrite Qfloor_Z.
  assert (Hc : (inject_Z z - inject_Z z ?= 1 # 2)%Q = Lt).
  { apply (proj1 (Qlt_alt _ _)). lra. }
  by rewrite Hc.
Qed.

Lemma rint_proper (x y : Q) : (x == y)%Q → rint x = rint y.
Proof.
  intros H. unfold rint. rewrite (Qfloor_comp _ _ H).
  assert (Hc : (x - inject_Z (Qfloor y) ?= 1 # 2)%Q
             = (y - inject_Z (Qfloor y) ?= 1 # 2)%Q).
  { apply Qcompare_comp; [ rewrite H; reflexivity | reflexivity ]. }
  by rewrite Hc.
Qed.

Lemma rint_int (x : Q) (z : Z) : (x == inject_Z z)%Q → rint x = z.
Proof. intros H. rewrite (rint_proper _ _ H). apply rint_inject. Qed.

Lemma pow2_pos (e : Z) : (0 < 2 ^ e)%Q.
Proof. apply Qpower_0_lt. lra. Qed.

Lemma pow2_split (a b : Z) : (2 ^ (a + b) == 2 ^ a * 2 ^ b)%Q.
Proof. apply Qpower_plus. lra. Qed.

Lemma pow2_inject (k : Z) : 0 ≤ k → (inject_Z (2 ^ k) == 2 ^ k)%Q.
Proof. intros Hk. by rewrite Zpower_Qpower. Qed.

(** [2 ^ exponent x <= |x|] for [x] other than 0. *)
Lemma exponent_le (x : Q) : ¬ (x == 0)%Q → (2 ^ exponent x <= Qabs x)%Q.
Proof.
  intros Hx. unfold exponent.
  set (a := Z.abs (Qnum x)). set (b := Z.pos (Qden x)).
  set (e := Z.log2 a - Z.log2 b).
  destruct (Qle_bool (2 ^ e) (Qabs x)) eqn:Ht.
  - by apply Qle_bool_iff.
  - assert (Ha : 0 < a).
    { unfold a. destruct x as [n d]. unfold Qeq in Hx. simpl in *. lia. }
    assert (Hb : 0 < b) by (unfold b; lia).
    pose proof (Z.log2_spec a Ha) as [Hla _].
    pose proof (Z.log2_spec b Hb) as [_ Hlb].
    pose proof (Z.log2_nonneg a). pose proof (Z.log2_nonneg b).
    assert (Hx' : (Qabs x == inject_Z a / inject_Z b)%Q).
    { destruct x as [n d]. unfold a, b. simpl.
      rewrite <- Qmake_Qdiv. reflexivity. }
    rewrite Hx'.
    assert (Hbq : (inject_Z 0 < inject_Z b)%Q) by (rewrite <- Zlt_Qlt; lia).
    change (inject_Z 0) with 0%Q in Hbq.
    apply Qle_shift_div_l; [done|].
    (* 2^(e-1) * b <= 2^(e-1) * 2^(lb+1) = 2^la <= a *)
    assert (H1 : (2 ^ (e - 1) * 2 ^ (Z.log2 b + 1) == 2 ^ Z.log2 a)%Q).
    { rewrite <- pow2_split. unfold e.
      replace (Z.log2 a - Z.log2 b - 1 + (Z.log2 b + 1)) with (Z.log2 a) by lia.
      reflexivity. }
    assert (H2 : (inject_Z b <= 2 ^ (Z.log2 b + 1))%Q).
    { rewrite <- pow2_inject by lia. rewrite <- Zle_Qle. lia. }
    assert (H3 : (2 ^ Z.log2 a <= inject_Z a)%Q).
    { rewrite <- pow2_inject by lia. rewrite <- Zle_Qle. lia. }
    pose proof (pow2_pos (e - 1)).
    set (p := (2 ^ (e - 1))%Q) in *. set (q := (2 ^ (Z.log2 b + 1))%Q) in *.
    set (r := (2 ^ Z.log2 a)%Q) in *.
    set (bb := inject_Z b) in *. set (aa := inject_Z a) in *.
    clearbody p q r bb aa. nra.
Qed.

Lemma float64_value (x : Q) :
  ¬ (x == 0)%Q →
  (float64 x == inject_Z (rint (x * 2 ^ (52 - exponent x))) * 2 ^ (exponent x - 52))%Q.
Proof.
  intros Hx. unfold float64.
  destruct (Qeq_bool x 0) eqn:Hz; [by apply Qeq_bool_iff in Hz|].
  apply Qred_correct.
Qed.

Lemma float64_zero (x : Q) : (x == 0)%Q → float64 x = 0%Q.
Proof.
  intros Hx. unfold float64. apply Qeq_bool_iff in Hx. by rewrite Hx.
Qed.

(** The relative error of rounding is at most [2^-53]. *)
Lemma float64_error (x : Q) :
  (0 <= x)%Q → (x * (1 - u64) <= float64 x <= x * (1 + u64))%Q.
Proof.
  intros Hx. destruct (Qeq_dec x 0) as [Hz|Hnz].
  { rewrite (float64_zero x Hz), Hz. unfold u64. lra. }
  rewrite (float64_value x Hnz).
  pose proof (exponent_le x Hnz) as He. rewrite Qabs_pos in He by done.
  set (e := exponent x) in *.
  pose proof (rint_bounds (x * 2 ^ (52 - e))) as [Hlo Hhi].
  set (m := inject_Z (rint _)) in *.
  pose proof (pow2_pos (52 - e)) as Hs. pose proof (pow2_pos (e - 52)) as Ht.
  assert (Hst : (2 ^ (e - 52) * 2 ^ (52 - e) == 1)%Q).
  { rewrite <- pow2_split. by replace (e - 52 + (52 - e)) with 0 by lia. }
  assert (Hte : (2 ^ (e - 52) == 2 ^ e * (1 # 4503599627370496))%Q).
  { replace (e - 52) with (e + -52) by lia. rewrite pow2_split. reflexivity. }
  set (s := (2 ^ (52 - e))%Q) in *. set (t := (2 ^ (e - 52))%Q) in *.
  set (p := (2 ^ e)%Q) in *. clearbody m s t p. unfold u64.
  assert (Hxt : (x * s * t == x)%Q) by (rewrite <- Qmult_assoc, (Qmult_comm s t), Hst; ring).
  split; nra.
Qed.

Lemma pow2_lt_inv (a b : Z) : (2 ^ a < 2 ^ b)%Q → a < b.
Proof. intros H. apply (Qpower_lt_compat_l_inv 2); [done | lra]. Qed.

(** An integer below [2^53] in absolute value is a [float64]. *)
Lemma float64_int (x : Q) (z : Z) :
  (x == inject_Z z)%Q → Z.abs z < 2 ^ 53 → (float64 x == inject_Z z)%Q.
Proof.
  intros Hx Hz. destruct (Z.eq_dec z 0) as [->|Hnz].
  { by rewrite (float64_zero x Hx). }
  assert (Hx0 : ¬ (x == 0)%Q).
  { rewrite Hx. change 0%Q with (inject_Z 0). rewrite inject_Z_injective. done. }
  rewrite (float64_value x Hx0).
  pose proof (exponent_le x Hx0) as He. set (e := exponent x) in *.
  assert (Habs : (Qabs x == inject_Z (Z.abs z))%Q).
  { rewrite Hx. unfold Qabs, inject_Z. reflexivity. }
  assert (Hlt : e < 53).
  { apply pow2_lt_inv. eapply Qle_lt_trans; [exact He|]. rewrite Habs.
    rewrite <- pow2_inject by lia. rewrite <- Zlt_Qlt. done. }
  assert (Hk : (x * 2 ^ (52 - e) == inject_Z (z * 2 ^ (52 - e)))%Q).
  { rewrite inject_Z_mult, pow2_inject by lia. by rewrite Hx. }
  rewrite (rint_int _ _ Hk), inject_Z_mult, pow2_inject by lia.
  rewrite <- Qmult_assoc, <- pow2_split.
  replace (52 - e + (e - 52)) with 0 by lia. change (2 ^ 0)%Q with 1%Q. ring.
Qed.

Lemma float_int (z : Z) : Z.abs z < 2 ^ 53 → (float z == inject_Z z)%Q.
Proof. intros H. by apply float64_int. Qed.


(** [ceil(P / L)], computed on floats, is the least [k] with [P <= k * L]. *)
Lemma ceil_div_spec (P L : Z) :
  0 < L → 0 < P < 2 ^ 53 →
  (ceil (float64 (inject_Z P / inject_Z L)) - 1) * L < P
    ≤ ceil (float64 (inject_Z P / inject_Z L)) * L.
Proof.
  intros HL HP. unfold ceil.
  set (x := (inject_Z P / inject_Z L)%Q).
  assert (HLq : (0 < inject_Z L)%Q).
  { change 0%Q with (inject_Z 0). rewrite <- Zlt_Qlt. done. }
  assert (HPq : (0 < inject_Z P)%Q).
  { change 0%Q with (inject_Z 0). rewrite <- Zlt_Qlt. lia. }
  assert (HP53 : (inject_Z P < 9007199254740992)%Q).
  { change 9007199254740992%Q with (inject_Z (2 ^ 53)). rewrite <- Zlt_Qlt. lia. }
  assert (Hx : (inject_Z L * x == inject_Z P)%Q).
  { unfold x. field. lra. }
  assert (Hx0 : (0 <= x)%Q).
  { unfold x. apply Qle_shift_div_l; [done | lra]. }
  pose proof (Qle_ceiling (float64 x)) as Hhi.
  pose proof (Qceiling_lt (float64 x)) as Hlo.
  set (c := Qceiling (float64 x)) in *. clearbody c.
  rewrite inject_Z_minus in Hlo. change (inject_Z 1) with 1%Q in Hlo.
  (* the true quotient and its ceiling *)
  set (k := (P + L - 1) `div` L).
  assert (Hk : (k - 1) * L < P ≤ k * L).
  { unfold k. pose proof (Z.div_mod (P + L - 1) L ltac:(lia)).
    pose proof (Z.mod_pos_bound (P + L - 1) L HL). nia. }
  assert (Hkq : (inject_Z ((k - 1) * L) < inject_Z P <= inject_Z (k * L))%Q).
  { rewrite <- Zlt_Qlt, <- Zle_Qle. done. }
  rewrite !inject_Z_mult, inject_Z_minus in Hkq. change (inject_Z 1) with 1%Q in Hkq.
  assert (Hkq' : (inject_Z ((k - 1) * L + 1) <= inject_Z P)%Q).
  { rewrite <- Zle_Qle. lia. }
  rewrite inject_Z_plus, inject_Z_mult, inject_Z_minus in Hkq'.
  change (inject_Z 1) with 1%Q in Hkq'.
  assert (Hf : (inject_Z k - 1 < float64 x <= inject_Z k)%Q).
  { destruct (Z.eq_dec P (k * L)) as [Heq|Hne].
    - assert (Hxk : (x == inject_Z k)%Q).
      { unfold x. rewrite Heq, inject_Z_mult. field. lra. }
      rewrite (float64_int x k Hxk) by nia. lra.
    - assert (Hle : (inject_Z P <= inject_Z (k * L - 1))%Q).
      { rewrite <- Zle_Qle. lia. }
      rewrite inject_Z_minus, inject_Z_mult in Hle.
      change (inject_Z 1) with 1%Q in Hle.
      pose proof (float64_error x Hx0) as [He1 He2]. unfold u64 in He1, He2.
      set (f := float64 x) in *. clearbody f.
      set (l := inject_Z L) in *. set (p := inject_Z P) in *.
      set (kk := inject_Z k) in *. clearbody l p kk.
      assert (H1 : (l * (x * (1 - (1 # 9007199254740992))) <= l * f)%Q)
        by (apply (proj2 (Qmult_le_l _ _ _ HLq)); done).
      assert (H2 : (l * f <= l * (x * (1 + (1 # 9007199254740992))))%Q)
        by (apply (proj2 (Qmult_le_l _ _ _ HLq)); done).
      assert (E1 : (l * (x * (1 - (1 # 9007199254740992)))
                    == p * (1 - (1 # 9007199254740992)))%Q)
        by (rewrite <- Hx; ring).
      assert (E2 : (l * (x * (1 + (1 # 9007199254740992)))
                    == p * (1 + (1 # 9007199254740992)))%Q)
        by (rewrite <- Hx; ring).
      rewrite E1 in H1. rewrite E2 in H2.
      assert (H3 : (l * (kk - 1) < l * f)%Q) by lra.
      assert (H4 : (l * f <= l * kk)%Q) by lra.
      split; [exact (proj1 (Qmult_lt_l _ _ _ HLq) H3)
             | exact (proj1 (Qmult_le_l _ _ _ HLq) H4)]. }
  destruct Hf as [Hf1 Hf2].
  assert (c = k).
  { assert (inject_Z c - 1 < inject_Z k)%Q by lra.
    assert (inject_Z k - 1 < inject_Z c)%Q by lra.
    assert (inject_Z (c - 1) < inject_Z k)%Q
      by (rewrite inject_Z_minus; done).
    assert (inject_Z (k - 1) < inject_Z c)%Q
      by (rewrite inject_Z_minus; done).
    rewrite <- Zlt_Qlt in *. lia. }
  subst c. done.
Qed.

(** ** Rounding and the boundary indices *)

Lemma astype_int32_wrap (z : Z) :
  astype_int32 (inject_Z z) = (z + 2 ^ 31) `mod` 2 ^ 32 - 2 ^ 31.
Proof.
  unfold astype_int32. destruct (Qle_bool 0 (inject_Z z)).
  - by rewrite Qfloor_Z.
  - by rewrite Qceiling_Z.
Qed.

Lemma astype_int32_inject (z : Z) :
  - 2 ^ 31 ≤ z < 2 ^ 31 → astype_int32 (inject_Z z) = z.
Proof. intros Hz. rewrite astype_int32_wrap, Z.mod_small; lia. Qed.

Lemma round_index_rint (x : Q) :
  round_index x = (rint x + 2 ^ 31) `mod` 2 ^ 32 - 2 ^ 31.
Proof. unfold round_index, np_round. apply astype_int32_wrap. Qed.

Lemma round_index_int (x : Q) (z : Z) :
  (x == inject_Z z)%Q → - 2 ^ 31 ≤ z < 2 ^ 31 → round_index x = z.
Proof.
  intros Hx Hz. rewrite round_index_rint, (rint_int x z Hx), Z.mod_small; lia.
Qed.

Lemma inject_Z_pos (z : Z) : 0 < z → (0 < inject_Z z)%Q.
Proof. intros H. change 0%Q with (inject_Z 0). by rewrite <- Zlt_Qlt. Qed.

Lemma inject_Z_nonneg (z : Z) : 0 ≤ z → (0 <= inject_Z z)%Q.
Proof. intros H. change 0%Q with (inject_Z 0). by rewrite <- Zle_Qle. Qed.

Lemma Qeq_bool_false (x : Q) : ¬ (x == 0)%Q → Qeq_bool x 0 = false.
Proof.
  intros H. destruct (Qeq_bool x 0) eqn:E; [|done].
  by apply Qeq_bool_iff in E.
Qed.

(** The last point is [stop]. *)
Lemma linspace_point_last (n P : Z) : linspace_point n P P = float n.
Proof. unfold linspace_point. by rewrite Z.eqb_refl. Qed.

(** When [P] divides [n], no operation of [np.linspace] rounds. *)
Lemma linspace_point_exact (n P i : Z) :
  0 < P → 0 ≤ i ≤ P → Z.abs n < 2 ^ 53 → (P | n) →
  (linspace_point n P i == inject_Z (i * (n `div` P)))%Q.
Proof.
  intros HP Hi Hn [k Hk].
  assert (Hdiv : n `div` P = k) by (rewrite Hk, Z.div_mul; lia).
  rewrite Hdiv. clear Hdiv.
  unfold linspace_point. destruct (Z.eqb_spec i P) as [->|Hne].
  { rewrite float_int by done. by rewrite Hk, Z.mul_comm. }
  assert (Hd : (fsub (float n) (float 0) == inject_Z n)%Q).
  { apply float64_int; [|done]. rewrite (float_int n Hn).
    change (float 0) with 0%Q. ring. }
  set (delta := fsub (float n) (float 0)) in *. cbv zeta.
  change (float 0) with 0%Q.
  destruct (Z.eq_dec k 0) as [->|Hk0].
  - assert (Hd0 : (delta == 0)%Q) by (rewrite Hd, Hk; reflexivity).
    rewrite Z.mul_0_r.
    apply float64_int; [|done].
    assert (Hs : (fdiv delta (float P) == 0)%Q).
    { apply (float64_int _ 0); [|done]. rewrite Hd0. unfold Qdiv. ring. }
    assert (H1 : (fmul (fdiv (float i) (float P)) delta == 0)%Q).
    { apply (float64_int _ 0); [|done]. rewrite Hd0. ring. }
    assert (H2 : (fmul (float i) (fdiv delta (float P)) == 0)%Q).
    { apply (float64_int _ 0); [|done]. rewrite Hs. ring. }
    destruct (Qeq_bool (fdiv delta (float P)) 0); [rewrite H1 | rewrite H2];
      reflexivity.
  - assert (HPn : P ≤ Z.abs n) by nia.
    assert (HfP : (float P == inject_Z P)%Q) by (apply float_int; lia).
    assert (HPq : (0 < inject_Z P)%Q) by (by apply inject_Z_pos).
    assert (Hs : (fdiv delta (float P) == inject_Z k)%Q).
    { apply float64_int; [|nia]. rewrite Hd, HfP, Hk, inject_Z_mult. field. lra. }
    set (step := fdiv delta (float P)) in *.
    assert (Hs0 : ¬ (step == 0)%Q).
    { rewrite Hs. change 0%Q with (inject_Z 0). by rewrite inject_Z_injective. }
    rewrite (Qeq_bool_false _ Hs0).
    assert (Hm : (fmul (float i) step == inject_Z (i * k))%Q).
    { apply float64_int; [|nia]. rewrite Hs, float_int by lia.
      by rewrite inject_Z_mult. }
    apply float64_int; [|nia]. rewrite Hm. ring.
Qed.

(** In general every point carries the error of three roundings: of the
    step, of the product and of the addition of [start]. *)
Lemma linspace_point_error (n P i : Z) :
  0 < P < 2 ^ 53 → 0 ≤ i ≤ P → 0 < n < 2 ^ 53 →
  let c := (inject_Z (i * n) / inject_Z P)%Q in
  (c * ((1 - u64) * (1 - u64) * (1 - u64)) <= linspace_point n P i
     <= c * ((1 + u64) * (1 + u64) * (1 + u64)))%Q.
Proof.
  intros HP Hi Hn c.
  assert (HPq : (0 < inject_Z P)%Q) by (apply inject_Z_pos; lia).
  assert (HNq : (0 < inject_Z n)%Q) by (apply inject_Z_pos; lia).
  assert (HIq : (0 <= inject_Z i)%Q) by (apply inject_Z_nonneg; lia).
  unfold linspace_point. destruct (Z.eqb_spec i P) as [->|Hne].
  { assert (Hc : (c == inject_Z n)%Q).
    { unfold c. rewrite inject_Z_mult. field. lra. }
    rewrite float_int by lia. rewrite Hc. unfold u64. lra. }
  assert (Hd : (fsub (float n) (float 0) == inject_Z n)%Q).
  { apply float64_int; [|lia]. rewrite (float_int n) by lia.
    change (float 0) with 0%Q. ring. }
  set (delta := fsub (float n) (float 0)) in *. cbv zeta.
  change (float 0) with 0%Q.
  assert (HfP : (float P == inject_Z P)%Q) by (apply float_int; lia).
  assert (HfI : (float i == inject_Z i)%Q) by (apply float_int; lia).
  set (x := (inject_Z n / inject_Z P)%Q).
  assert (Hx : (0 < x)%Q).
  { unfold x. apply Qlt_shift_div_l; [done | lra]. }
  assert (Hxe : (delta / float P == x)%Q).
  { unfold x. by rewrite Hd, HfP. }
  assert (Hcx : (c == inject_Z i * x)%Q).
  { unfold c, x. rewrite inject_Z_mult. field. lra. }
  pose proof (float64_error (delta / float P)) as Hs.
  fold (fdiv delta (float P)) in Hs. rewrite Hxe in Hs.
  specialize (Hs ltac:(lra)). unfold u64 in Hs.
  set (step := fdiv delta (float P)) in *.
  assert (Hs0 : ¬ (step == 0)%Q) by lra.
  rewrite (Qeq_bool_false _ Hs0).
  assert (Hm : (c * (1 - u64) <= float i * step <= c * (1 + u64))%Q).
  { rewrite HfI, Hcx. unfold u64. destruct Hs as [Hs1 Hs2].
    split.
    - rewrite <- Qmult_assoc, !(Qmult_comm (inject_Z i)).
      by apply Qmult_le_compat_r.
    - rewrite <- Qmult_assoc, !(Qmult_comm (inject_Z i)).
      by apply Qmult_le_compat_r. }
  assert (Hc0 : (0 <= c)%Q).
  { rewrite Hcx. apply Qmult_le_0_compat; lra. }
  unfold u64 in Hm.
  pose proof (float64_error (float i * step) ltac:(lra)) as Ht.
  fold (fmul (float i) step) in Ht. unfold u64 in Ht.
  set (t := fmul (float i) step) in *.
  set (m := (float i * step)%Q) in *.
  pose proof (float64_error (t + 0) ltac:(lra)) as Hy.
  fold (fadd t 0) in Hy. unfold u64 in Hy. unfold u64.
  set (y := fadd t 0) in *. clearbody y t m step c. lra.
Qed.

Lemma boundary_0 n P : 0 < P → boundary n P 0 = 0.
Proof.
  intros HP. unfold boundary. apply round_index_int; [|lia].
  unfold linspace_point. destruct (Z.eqb_spec 0 P); [lia|]. cbv zeta.
  change (float 0) with 0%Q.
  set (delta := fsub (float n) 0). set (step := fdiv delta (float P)).
  assert (H1 : (fmul (fdiv 0 (float P)) delta == 0)%Q).
  { apply (float64_int _ 0); [|done].
    assert (H : (fdiv 0 (float P) == 0)%Q).
    { apply (float64_int _ 0); [|done]. unfold Qdiv. ring. }
    rewrite H. ring. }
  assert (H2 : (fmul 0 step == 0)%Q).
  { apply (float64_int _ 0); [|done]. ring. }
  apply (float64_int _ 0); [|done].
  destruct (Qeq_bool step 0); [rewrite H1 | rewrite H2]; reflexivity.
Qed.

Lemma boundary_last n P : - 2 ^ 31 ≤ n < 2 ^ 31 → boundary n P P = n.
Proof.
  intros Hn. unfold boundary. rewrite linspace_point_last.
  apply round_index_int; [|done]. apply float_int. lia.
Qed.

(** When [P] divides [n], the boundaries are the multiples of [n // P]. *)
Lemma boundary_exact n P i :
  0 < P → 0 ≤ i ≤ P → - 2 ^ 31 ≤ n < 2 ^ 31 → (P | n) →
  boundary n P i = i * (n `div` P).
Proof.
  intros HP Hi Hn Hd. unfold boundary.
  apply round_index_int; [apply linspace_point_exact; (done || lia)|].
  destruct Hd as [k ->]. rewrite Z.div_mul by lia. nia.
Qed.

(** In general a boundary is within one half of [i * n / P]; here cleared
    of denominators. *)
Lemma boundary_bounds n P i :
  0 < P → 0 ≤ i ≤ P → 0 ≤ n < 2 ^ 31 → n * P ≤ 2 ^ 50 →
  2 * (i * n) - P ≤ 2 * P * boundary n P i ≤ 2 * (i * n) + P.
Proof.
  intros HP Hi Hn HnP.
  destruct (Z.eq_dec n 0) as [->|Hn0].
  { rewrite boundary_exact by (lia || (exists 0; lia)).
    rewrite Z.div_0_l by lia. lia. }
  assert (HP50 : P ≤ 2 ^ 50) by nia.
  pose proof (linspace_point_error n P i ltac:(lia) Hi ltac:(lia)) as He.
  cbv zeta in He. unfold u64 in He.
  set (y := linspace_point n P i) in *.
  pose proof (rint_bounds y) as Hr.
  assert (Hb : 2 * (i * n) - P ≤ 2 * P * rint y ≤ 2 * (i * n) + P).
  { set (r := rint y) in *. clearbody r y.
    set (c := (inject_Z (i * n) / inject_Z P)%Q) in *.
    assert (HPq : (0 < inject_Z P)%Q) by (by apply inject_Z_pos).
    assert (Hc : (inject_Z P * c == inject_Z (i * n))%Q).
    { unfold c. field. lra. }
    assert (Hc0 : (0 <= c)%Q).
    { unfold c. apply Qle_shift_div_l; [done|].
      rewrite Qmult_0_l. apply inject_Z_nonneg. nia. }
    assert (Hcn : (inject_Z P * c <= inject_Z P * inject_Z n)%Q).
    { rewrite Hc, <- inject_Z_mult, <- Zle_Qle. nia. }
    assert (HnPq : (inject_Z P * inject_Z n <= 1125899906842624)%Q).
    { rewrite <- inject_Z_mult.
      change 1125899906842624%Q with (inject_Z (2 ^ 50)).
      rewrite <- Zle_Qle. lia. }
    assert (H1 : (inject_Z P * (inject_Z r - c)
                  <= inject_Z P * ((1 # 2) + c * (7 # 18014398509481984)))%Q).
    { apply (proj2 (Qmult_le_l _ _ _ HPq)). lra. }
    assert (H2 : (inject_Z P * (c - inject_Z r)
                  <= inject_Z P * ((1 # 2) + c * (7 # 18014398509481984)))%Q).
    { apply (proj2 (Qmult_le_l _ _ _ HPq)). lra. }
    assert (E1 : (inject_Z P * (inject_Z r - c)
                  == inject_Z (P * r) - inject_Z (i * n))%Q)
      by (rewrite <- Hc, inject_Z_mult; ring).
    assert (E2 : (inject_Z P * (c - inject_Z r)
                  == inject_Z (i * n) - inject_Z (P * r))%Q)
      by (rewrite <- Hc, inject_Z_mult; ring).
    assert (E3 : (inject_Z P * ((1 # 2) + c * (7 # 18014398509481984))
                  == inject_Z P * (1 # 2)
                     + (inject_Z P * c) * (7 # 18014398509481984))%Q) by ring.
    rewrite E1, E3 in H1. rewrite E2, E3 in H2.
    assert (H3 : (inject_Z (2 * (P * r) - 2 * (i * n)) < inject_Z (P + 1))%Q).
    { rewrite inject_Z_minus, !inject_Z_mult, inject_Z_plus.
      rewrite !inject_Z_mult in H1.
      set (pc := (inject_Z P * c)%Q) in *.
      set (pn := (inject_Z P * inject_Z n)%Q) in *.
      change (inject_Z 2) with 2%Q. change (inject_Z 1) with 1%Q. lra. }
    assert (H4 : (inject_Z (2 * (i * n) - 2 * (P * r)) < inject_Z (P + 1))%Q).
    { rewrite inject_Z_minus, !inject_Z_mult, inject_Z_plus.
      rewrite !inject_Z_mult in H2.
      set (pc := (inject_Z P * c)%Q) in *.
      set (pn := (inject_Z P * inject_Z n)%Q) in *.
      change (inject_Z 2) with 2%Q. change (inject_Z 1) with 1%Q. lra. }
    rewrite <- Zlt_Qlt in H3, H4. lia. }
  unfold boundary. rewrite round_index_rint. fold y.
  rewrite Z.mod_small; [lia|]. nia.
Qed.

(** Two consecutive boundaries are [n // P] or [n // P + 1] apart. *)
Lemma boundary_step n P i :
  0 < P → 0 ≤ i < P → 0 ≤ n < 2 ^ 31 → n * P ≤ 2 ^ 50 →
  n `div` P ≤ boundary n P (i + 1) - boundary n P i ≤ n `div` P + 1.
Proof.
  intros HP Hi Hn HnP.
  destruct (decide (n `mod` P = 0)) as [Hd|Hd].
  - apply Z.mod_divide in Hd; [|lia].
    rewrite (boundary_exact _ _ i), (boundary_exact _ _ (i + 1)) by (done || lia).
    lia.
  - pose proof (boundary_bounds n P i HP ltac:(lia) Hn HnP).
    pose proof (boundary_bounds n P (i + 1) HP ltac:(lia) Hn HnP).
    pose proof (Z.div_mod n P ltac:(lia)).
    pose proof (Z.mod_pos_bound n P HP).
    set (q := n `div` P) in *. set (r := n `mod` P) in *.
    set (a := boundary n P i) in *. set (b := boundary n P (i + 1)) in *.
    clearbody q r a b. assert (Hnq : n = P * q + r) by lia.
    clear Hn HnP. subst n. nia.
Qed.

Lemma boundary_range n P i :
  0 < P → 0 ≤ i ≤ P → 0 ≤ n < 2 ^ 31 → n * P ≤ 2 ^ 50 →
  0 ≤ boundary n P i ≤ n.
Proof.
  intros HP Hi Hn HnP. pose proof (boundary_bounds n P i HP Hi Hn HnP). nia.
Qed.

(** For a positive number of parts, [_partition_inds] is the list of the
    boundaries [round(i * n / num_parts)], [i = 0 .. num_parts]. *)
Lemma partition_inds_eq n P :
  0 < P → _partition_inds n P = inr (boundary n P <$> seqZ 0 (P + 1)).
Proof.
  intros HP. unfold _partition_inds, np_linspace.
  destruct (Z.ltb_spec (P + 1) 0); [lia|].
  replace (P + 1 - 1) with P by lia.
  destruct (Z.ltb_spec 0 P); [|lia].
  destruct (Z.ltb_spec 1 (P + 1)); [|lia].
  f_equal. apply list_eq. intros i.
  rewrite !list_lookup_fmap.
  destruct (decide (Z.of_nat i < P + 1)) as [Hi|Hi].
  2:{ rewrite lookup_seqZ_ge by lia. simpl.
      rewrite lookup_ge_None_2; [done|].
      rewrite length_insert.
      destruct (Qeq_bool _ _); rewrite !length_fmap, length_seqZ; lia. }
  rewrite lookup_seqZ_lt by lia. simpl.
  unfold boundary, round_index, linspace_point. rewrite Z.add_0_l.
  destruct (decide (i = Z.to_nat P)) as [->|Hne].
  - rewrite list_lookup_insert_eq.
    2:{ destruct (Qeq_bool _ _); rewrite !length_fmap, length_seqZ; lia. }
    simpl. rewrite Z2Nat.id by lia. by rewrite Z.eqb_refl.
  - rewrite list_lookup_insert_ne by done.
    destruct (Z.eqb_spec (Z.of_nat i) P); [lia|]. cbv zeta.
    destruct (Qeq_bool _ _);
      rewrite !list_lookup_fmap, lookup_seqZ_lt by lia; simpl;
      by rewrite Z.add_0_l.
Qed.

Lemma partition_inds_minus_one n : _partition_inds n (-1) = inr [].
Proof. reflexivity. Qed.

Lemma partition_inds_negative n P : P < -1 → _partition_inds n P = inl ValueError.
Proof.
  intros HP. unfold _partition_inds, np_linspace.
  by destruct (Z.ltb_spec (P + 1) 0); [|lia].
Qed.

(** Two values of the code that depend on the rounding of [float64] and on
    the range of [int32]: [11 * (25 / 22)] is rounded to a number above
    12.5, so that the boundary is 13 and not the even neighbour 12 of the
    exact 12.5; and the boundary [2^31] wraps to [-2^31]. *)
Lemma partition_inds_25_22 :
  _partition_inds 25 22 =
    inr [0; 1; 2; 3; 5; 6; 7; 8; 9; 10; 11; 13; 14; 15; 16; 17; 18; 19; 20;
         22; 23; 24; 25].
Proof. vm_compute. reflexivity. Qed.

Lemma partition_inds_int32_wraps :
  _partition_inds 2147483648 1 = inr [0; -2147483648].
Proof. vm_compute. reflexivity. Qed.

Lemma py_getitem_boundary n P i :
  0 ≤ i ≤ P →
  py_getitem (boundary n P <$> seqZ 0 (P + 1)) i = inr (boundary n P i).
Proof.
  intros Hi. rewrite <- (Z2Nat.id i) at 1 by lia.
  apply py_getitem_lookup.
  rewrite list_lookup_fmap, lookup_seqZ_lt by lia. simpl.
  by rewrite Z.add_0_l, Z2Nat.id by lia.
Qed.

Lemma length_boundaries n P :
  0 < P → Z.of_nat (length (boundary n P <$> seqZ 0 (P + 1))) = P + 1.
Proof. intros HP. rewrite length_fmap, length_seqZ. lia. Qed.

(** ** Running the scene split *)

(** At least as many scenes as processes (or a negative process count):
    the list is kept, and the warning is printed unless the division is
    exact. *)
Lemma normalize_scenes_fits σ scenes xs P :
  heap σ !! scenes = Some (OList xs) →
  P ≠ 0 → P ≤ Z.of_nat (length xs) →
  normalize_scenes scenes P σ =
    (emit (negb (Z.of_nat (length xs) `mod` P =? 0)) warning_divisor σ, inr scenes).
Proof.
  intros Hl HP HPn. unfold normalize_scenes.
  rewrite (bind_run _ _ _ _ _ (len_run _ _ _ Hl)).
  destruct (Z.ltb_spec (Z.of_nat (length xs)) P); [lia|].
  rewrite (bind_run _ _ _ _ _ (len_run _ _ _ Hl)).
  rewrite py_mod_nonzero by lia.
  rewrite (bind_run _ _ _ _ _ (lift_run _ _)).
  by rewrite (bind_run _ _ _ _ _ (warn_run _ _ _)).
Qed.

(** More processes than scenes: two new lists are allocated, the repeated
    one and its truncation, and the latter is returned. *)
Lemma normalize_scenes_oversample σ scenes xs P :
  heap σ !! scenes = Some (OList xs) →
  0 < Z.of_nat (length xs) < P →
  let n := Z.of_nat (length xs) in
  let σ0 := emit (negb (P `mod` n =? 0)) warning_divisible σ in
  let rep := py_list_mul xs (ceil (float64 (inject_Z P / inject_Z n))) in
  let cut := py_slice rep None (Some (P * (Z.of_nat (length rep) `div` P))) in
  normalize_scenes scenes P σ =
    (mkState (heap σ ++ [OList rep; OList cut]) (stdout σ0),
     inr (S (length (heap σ)))).
Proof.
  intros Hl HP n σ0 rep cut. unfold normalize_scenes.
  rewrite (bind_run _ _ _ _ _ (len_run _ _ _ Hl)). fold n.
  destruct (Z.ltb_spec n P); [|lia].
  rewrite (bind_run _ _ _ _ _ (len_run _ _ _ Hl)). fold n.
  rewrite py_mod_nonzero by lia.
  rewrite (bind_run _ _ _ _ _ (lift_run _ _)).
  rewrite (bind_run _ _ _ _ _ (warn_run _ _ _)). fold σ0.
  assert (Hl0 : heap σ0 !! scenes = Some (OList xs)) by (by unfold σ0; rewrite heap_emit).
  rewrite (bind_run _ _ _ _ _ (load_list_run _ _ _ Hl0)).
  rewrite (bind_run _ _ _ _ _ (len_run _ _ _ Hl0)). fold n.
  rewrite py_truediv_nonzero by lia.
  rewrite (bind_run _ _ _ _ _ (lift_run _ _)). fold rep.
  rewrite (bind_run _ _ _ _ _ (alloc_run _ _)).
  set (σ1 := mkState (heap σ0 ++ [OList rep]) (stdout σ0)).
  assert (Hl1 : heap σ1 !! length (heap σ0) = Some (OList rep)).
  { simpl. by rewrite lookup_app_r, Nat.sub_diag by lia. }
  rewrite (bind_run _ _ _ _ _ (load_list_run _ _ _ Hl1)).
  rewrite (bind_run _ _ _ _ _ (len_run _ _ _ Hl1)).
  rewrite py_floordiv_nonzero by lia.
  rewrite (bind_run _ _ _ _ _ (lift_run _ _)). fold cut.
  rewrite alloc_run. unfold σ1. simpl. unfold σ0. rewrite heap_emit.
  rewrite <- app_assoc, length_app. simpl.
  repeat f_equal. lia.
Qed.

(** No process, or no scene: the first [%] divides by zero. *)
Lemma normalize_scenes_zero_division σ scenes xs P :
  heap σ !! scenes = Some (OList xs) →
  P = 0 ∨ (xs = [] ∧ 0 < P) →
  normalize_scenes scenes P σ = (σ, inl ZeroDivisionError).
Proof.
  intros Hl Hbad. unfold normalize_scenes.
  rewrite (bind_run _ _ _ _ _ (len_run _ _ _ Hl)).
  destruct (Z.ltb_spec (Z.of_nat (length xs)) P) as [Hover|Hfit].
  - destruct Hbad as [->|[-> _]]; [lia|].
    by rewrite (bind_run _ _ _ _ _ (len_run _ _ _ Hl)).
  - assert (P = 0) as -> by (destruct Hbad as [->|[-> ?]]; simpl in *; lia).
    by rewrite (bind_run _ _ _ _ _ (len_run _ _ _ Hl)).
Qed.

(** For a non-empty list and a positive process count, normalization
    returns a list. *)
Lemma normalize_scenes_returns σ scenes xs P :
  heap σ !! scenes = Some (OList xs) → xs ≠ [] → 0 < P →
  ∃ σ1 l1 ys, normalize_scenes scenes P σ = (σ1, inr l1) ∧
              heap σ1 !! l1 = Some (OList ys).
Proof.
  intros Hl Hne HP.
  assert (0 < Z.of_nat (length xs)) by (destruct xs; simpl; [done|lia]).
  destruct (decide (P ≤ Z.of_nat (length xs))) as [Hfit|Hover].
  - eexists _, _, _. split; [apply (normalize_scenes_fits σ scenes xs P Hl); lia|].
    by rewrite heap_emit.
  - eexists _, _, _. split; [apply (normalize_scenes_oversample σ scenes xs P Hl); lia|].
    simpl. rewrite lookup_app_r by lia.
    by replace (S _ - _)%nat with 1%nat by lia.
Qed.

(** What the scene split does after normalization, for a process index
    within [0 .. total_processes - 1]: one list is allocated, the slice
    between the boundaries [process_ind] and [process_ind + 1], and the
    dictionary is returned unless [seeds[process_ind]] raises. *)
Lemma split_after_normalize self σ scenes P i seeds det σ1 l1 ys :
  normalize_scenes scenes P σ = (σ1, inr l1) →
  heap σ1 !! l1 = Some (OList ys) →
  0 ≤ i < P →
  _get_sampler_args_for_scene_split self scenes i P seeds det σ =
    let n := Z.of_nat (length ys) in
    let σ2 := mkState (heap σ1 ++
                [OList (py_slice ys (Some (boundary n P i))
                                    (Some (boundary n P (i + 1))))])
                (stdout σ1) in
    (σ2, match seeded seeds i with
         | inl e => inl e
         | inr sd =>
             inr (mkArgs (length (heap σ1)) (OBJECT_TYPES self) (ENV_ARGS self)
                    (MAX_STEPS self) (SENSORS self)
                    (Z.of_nat (length (action_names self))) sd det None None)
         end).
Proof.
  intros Hn Hl Hi. unfold _get_sampler_args_for_scene_split.
  rewrite (bind_run _ _ _ _ _ Hn).
  rewrite (bind_run _ _ _ _ _ (len_run _ _ _ Hl)).
  rewrite partition_inds_eq by lia. 
  unfold lift at 1. unfold bind at 1, ret at 1.
  rewrite (bind_run _ _ _ _ _ (load_list_run _ _ _ Hl)).
  rewrite !py_getitem_boundary by lia.
  unfold lift at 1. unfold bind at 1, ret at 1.
  unfold lift at 1. unfold bind at 1, ret at 1.
  unfold bind at 1, alloc at 1.
  unfold seeded. destruct seeds as [s|]; simpl.
  - unfold bind at 1, bind at 1. destruct (py_getitem s i); reflexivity.
  - reflexivity.
Qed.

(** A process index at or beyond [total_processes] is beyond the boundary
    array. *)
Lemma split_process_out_of_range self σ scenes P i seeds det σ1 l1 ys :
  normalize_scenes scenes P σ = (σ1, inr l1) →
  heap σ1 !! l1 = Some (OList ys) →
  0 < P ≤ i →
  (_get_sampler_args_for_scene_split self scenes i P seeds det σ).2
    = inl IndexError.
Proof.
  intros Hn Hl Hi. unfold _get_sampler_args_for_scene_split.
  rewrite (bind_run _ _ _ _ _ Hn).
  rewrite (bind_run _ _ _ _ _ (len_run _ _ _ Hl)).
  rewrite partition_inds_eq by lia.
  rewrite (bind_run _ _ _ _ _ (lift_run _ _)).
  rewrite (bind_run _ _ _ _ _ (load_list_run _ _ _ Hl)).
  pose proof (length_boundaries (Z.of_nat (length ys)) P ltac:(lia)) as Hlen.
  destruct (decide (i = P)) as [->|Hne].
  - rewrite py_getitem_boundary by lia.
    rewrite (bind_run _ _ _ _ _ (lift_run _ _)).
    by rewrite py_getitem_out by lia.
  - by rewrite py_getitem_out by lia.
Qed.

(** Whatever the other arguments, a returned dictionary carries
    [seeds[process_ind]]. *)
Lemma split_returns_seed self σ scenes pi P s det σ' res :
  _get_sampler_args_for_scene_split self scenes pi P (Some s) det σ = (σ', inr res) →
  ∃ v, py_getitem s pi = inr v ∧ seed res = Some v.
Proof.
  unfold _get_sampler_args_for_scene_split. intros H.
  do 7 (apply bind_inr in H as (? & ? & _ & H)).
  apply bind_inr in H as (σ2 & sd & Hsd & H).
  apply bind_inr in Hsd as (σ3 & v & Hv & Hsd).
  apply lift_inr in Hv as [Hv _].
  injection Hsd as _ <-. injection H as _ <-. by exists v.
Qed.

(** The dictionary the scene split returns refers to the class's
    [ENV_ARGS] object itself. *)
Lemma split_returns_env_args self σ scenes pi P seeds det σ' res :
  _get_sampler_args_for_scene_split self scenes pi P seeds det σ = (σ', inr res) →
  env_args res = ENV_ARGS self.
Proof.
  unfold _get_sampler_args_for_scene_split. intros H.
  do 8 (apply bind_inr in H as (? & ? & _ & H)).
  by injection H as _ <-.
Qed.

(** ** Partition of the scene list *)

(** The share of a process when there are at least as many scenes as
    processes: the slice between its two boundaries. *)
Lemma split_fits_share self σ scenes xs n P i det a b :
  heap σ !! scenes = Some (OList xs) →
  Z.of_nat (length xs) = n →
  0 ≤ i < P → P ≤ n →
  boundary n P i = a → boundary n P (i + 1) = b →
  0 ≤ a ≤ b → b ≤ n →
  ∃ l, assigned_scenes
         (_get_sampler_args_for_scene_split self scenes i P None det σ) = Some l ∧
       Z.of_nat (length l) = b - a.
Proof.
  intros Hl Hlen Hi HP Ha Hb Hab Hbn.
  erewrite split_after_normalize;
    [| by apply normalize_scenes_fits; [done|lia|lia]
     | by rewrite heap_emit | lia ].
  simpl. rewrite heap_emit, lookup_app_r, Nat.sub_diag by lia.
  simpl. eexists. split; [reflexivity|].
  rewrite Hlen, Ha, Hb.
  rewrite py_slice_segment by lia.
  rewrite length_take, length_drop. lia.
Qed.

(** C1, as stated, fails: with 335544321 scenes and 67108864 processes the
    rounded step of [np.linspace] is slightly too large, the boundaries
    33554430, 33554431 and 33554432 are 167772150, 167772156 and 167772160,
    and so process 33554430 is given six scenes and process 33554431
    four. *)
Lemma float_rounding_unbalanced_shares :
  let run i :=
    _get_sampler_args_for_scene_split (ObjectManipThorPPO.cls []) 4%nat i
      67108864 None false many_scenes in
  ∃ a b,
    assigned_scenes (run 33554430) = Some a ∧
    assigned_scenes (run 33554431) = Some b ∧
    length a = 6%nat ∧ length b = 4%nat.
Proof.
  intros run.
  assert (Hl : heap many_scenes !! 4%nat = Some (OList (scene_names 335544321)))
    by reflexivity.
  assert (Hlen : Z.of_nat (length (scene_names 335544321)) = 335544321).
  { unfold scene_names. rewrite length_replicate. apply Z2Nat.id. lia. }
  assert (B0 : boundary 335544321 67108864 33554430 = 167772150)
    by (vm_compute; reflexivity).
  assert (B1 : boundary 335544321 67108864 (33554430 + 1) = 167772156)
    by (vm_compute; reflexivity).
  assert (B2 : boundary 335544321 67108864 (33554431 + 1) = 167772160)
    by (vm_compute; reflexivity).
  destruct (split_fits_share (ObjectManipThorPPO.cls []) many_scenes 4%nat _
              335544321 67108864 33554430 false _ _ Hl Hlen
              ltac:(lia) ltac:(lia) B0 B1 ltac:(lia) ltac:(lia))
    as (a & Ha & Hla).
  destruct (split_fits_share (ObjectManipThorPPO.cls []) many_scenes 4%nat _
              335544321 67108864 33554431 false _ _ Hl Hlen
              ltac:(lia) ltac:(lia) B1 B2 ltac:(lia) ltac:(lia))
    as (b & Hb & Hlb).
  exists a, b. unfold run. split; [exact Ha|]. split; [exact Hb|]. lia.
Qed.

(** C1, amended.  For a scene list of length [L < 2^31] and [P] processes
    with [0 < P <= L] and [L * P <= 2^50] (and a seeds list, when one is
    given, with an entry for each process), there are boundary indices
    [bounds 0 .. bounds P], the ones [_partition_inds] computes, that start
    at 0, end at [L] and strictly increase; process [i] is assigned exactly
    the elements of the list at the indices [bounds i .. bounds (i+1) - 1],
    so the ranges are contiguous and do not overlap; the sizes of two
    assignments differ by at most 1; and the assignments, in the order of
    the process indices, put together give the scene list, each element
    once. *)
Theorem partition_balanced_cover (self : experiment_config) (σ : state)
    (scenes : loc) (xs : list string) (P : nat) (seeds : option (list Z))
    (det : bool) :
  heap σ !! scenes = Some (OList xs) →
  (0 < P ≤ length xs)%nat →
  Z.of_nat (length xs) < 2 ^ 31 →
  Z.of_nat (length xs) * Z.of_nat P ≤ 2 ^ 50 →
  (∀ s, seeds = Some s → (P ≤ length s)%nat) →
  let run (i : nat) :=
    _get_sampler_args_for_scene_split self scenes (Z.of_nat i) (Z.of_nat P)
      seeds det σ in
  ∃ bounds : nat → nat,
    _partition_inds (Z.of_nat (length xs)) (Z.of_nat P)
      = inr ((λ i, Z.of_nat (bounds i)) <$> seq 0 (S P)) ∧
    bounds 0%nat = 0%nat ∧ bounds P = length xs ∧
    (∀ i, (i < P)%nat →
       (bounds i < bounds (S i))%nat ∧
       assigned_scenes (run i)
         = Some (take (bounds (S i) - bounds i) (drop (bounds i) xs))) ∧
    (∀ i j, (i < P)%nat → (j < P)%nat →
       (bounds (S i) - bounds i ≤ bounds (S j) - bounds j + 1)%nat) ∧
    concat ((λ i, default [] (assigned_scenes (run i))) <$> seq 0 P) = xs.
Proof.
  intros Hl HP H31 H50 Hs run.
  set (n := Z.of_nat (length xs)) in *. set (p := Z.of_nat P) in *.
  assert (Hp : 0 < p) by lia. assert (Hn : 0 ≤ n < 2 ^ 31) by lia.
  set (bounds := λ i : nat, Z.to_nat (boundary n p (Z.of_nat i))).
  assert (Hb : ∀ i : nat, (i ≤ P)%nat → Z.of_nat (bounds i) = boundary n p (Z.of_nat i)).
  { intros i Hi. unfold bounds.
    pose proof (boundary_range n p (Z.of_nat i) Hp ltac:(lia) Hn H50). lia. }
  assert (Hstep : ∀ i : nat, (i < P)%nat →
            n `div` p ≤ Z.of_nat (bounds (S i)) - Z.of_nat (bounds i) ≤ n `div` p + 1).
  { intros i Hi. rewrite !Hb by lia.
    replace (Z.of_nat (S i)) with (Z.of_nat i + 1) by lia.
    apply boundary_step; (done || lia). }
  assert (Hq : 1 ≤ n `div` p).
  { apply Z.div_le_lower_bound; lia. }
  assert (Hrun : ∀ i, (i < P)%nat →
            assigned_scenes (run i)
              = Some (take (bounds (S i) - bounds i) (drop (bounds i) xs))).
  { intros i Hi. unfold run.
    erewrite split_after_normalize; [| by apply normalize_scenes_fits; [done|lia|lia]
                                     | by rewrite heap_emit | lia ].
    simpl. destruct (seeded_ok seeds P (Z.of_nat i) Hs ltac:(lia)) as [sd ->].
    simpl. rewrite heap_emit, lookup_app_r, Nat.sub_diag by lia. simpl.
    f_equal. fold n p.
    pose proof (Hstep i Hi). 
    replace (Z.of_nat i + 1) with (Z.of_nat (S i)) by lia.
    rewrite <- !Hb by lia.
    pose proof (boundary_range n p (Z.of_nat (S i)) Hp ltac:(lia) Hn H50) as Hr.
    rewrite <- Hb in Hr by lia.
    rewrite py_slice_segment by lia. by rewrite !Nat2Z.id. }
  exists bounds. split; [|split; [|split; [|split; [|split]]]].
  - rewrite partition_inds_eq by done. f_equal.
    unfold seqZ. replace (Z.to_nat (p + 1)) with (S P) by lia.
    rewrite <- list_fmap_compose. apply list_fmap_ext.
    intros i x Hx. apply lookup_seq in Hx as [-> Hx]. simpl.
    rewrite Hb by lia. f_equal; lia.
  - unfold bounds. change (Z.of_nat 0) with 0. by rewrite boundary_0.
  - unfold bounds. fold p. rewrite boundary_last by lia. lia.
  - intros i Hi. split; [|by apply Hrun]. specialize (Hstep i Hi). lia.
  - intros i j Hi Hj. pose proof (Hstep i Hi). pose proof (Hstep j Hj). lia.
  - erewrite list_fmap_ext.
    2:{ intros i x Hx. apply lookup_seq in Hx as [-> Hx]. simpl.
        rewrite Hrun by lia. simpl. reflexivity. }
    rewrite concat_segments.
    + apply take_ge. unfold bounds. fold p. rewrite boundary_last by lia. lia.
    + unfold bounds. change (Z.of_nat 0) with 0. by rewrite boundary_0.
    + intros i Hi. specialize (Hstep i Hi). lia.
Qed.

Lemma partition_balanced_cover_witness :
  heap five_scenes !! 4%nat = Some (OList ["s0"; "s1"; "s2"; "s3"; "s4"]) ∧
  (0 < 3 ≤ length ["s0"; "s1"; "s2"; "s3"; "s4"])%nat ∧
  let xs := ["s0"; "s1"; "s2"; "s3"; "s4"] in
  let run (i : nat) :=
    _get_sampler_args_for_scene_split (ObjectManipThorPPO.cls []) 4%nat
      (Z.of_nat i) (Z.of_nat 3) None false five_scenes in
  ∃ bounds : nat → nat,
    _partition_inds (Z.of_nat (length xs)) (Z.of_nat 3)
      = inr ((λ i, Z.of_nat (bounds i)) <$> seq 0 4) ∧
    bounds 0%nat = 0%nat ∧ bounds 3%nat = length xs ∧
    (∀ i, (i < 3)%nat →
       (bounds i < bounds (S i))%nat ∧
       assigned_scenes (run i)
         = Some (take (bounds (S i) - bounds i) (drop (bounds i) xs))) ∧
    (∀ i j, (i < 3)%nat → (j < 3)%nat →
       (bounds (S i) - bounds i ≤ bounds (S j) - bounds j + 1)%nat) ∧
    concat ((λ i, default [] (assigned_scenes (run i))) <$> seq 0 3) = xs.
Proof.
  split; [reflexivity|]. split; [simpl; lia|].
  apply (partition_balanced_cover (ObjectManipThorPPO.cls []) five_scenes
           4%nat ["s0"; "s1"; "s2"; "s3"; "s4"] 3 None false).
  - reflexivity.
  - simpl; lia.
  - simpl; lia.
  - simpl; lia.
  - intros s Hs. discriminate Hs.
Defined.

(** A slice whose upper bound, brought into the list, is not above its
    lower bound is empty. *)
Lemma py_slice_empty {A} (xs : list A) (a b : Z) :
  slice_bound (Z.of_nat (length xs)) b ≤ slice_bound (Z.of_nat (length xs)) a →
  py_slice xs (Some a) (Some b) = [].
Proof.
  intros H. unfold py_slice. cbv zeta.
  replace (Z.to_nat (_ - _)) with 0%nat by lia. done.
Qed.

(** With more processes than scenes, fewer than [2^53], the normalized list
    has one entry for each process. *)
Lemma normalize_oversample_length σ scenes xs P :
  heap σ !! scenes = Some (OList xs) →
  0 < Z.of_nat (length xs) < P → P < 2 ^ 53 →
  let n := Z.of_nat (length xs) in
  let kz := ceil (float64 (inject_Z P / inject_Z n)) in
  let rep := py_list_mul xs kz in
  let ys := take (Z.to_nat P) rep in
  (kz - 1) * n < P ≤ kz * n ∧
  Z.of_nat (length rep) `div` P = 1 ∧
  Z.of_nat (length ys) = P ∧
  normalize_scenes scenes P σ =
    (mkState (heap σ ++ [OList rep; OList ys])
       (stdout (emit (negb (P `mod` n =? 0)) warning_divisible σ)),
     inr (S (length (heap σ)))).
Proof.
  intros Hl HP H53 n kz rep ys.
  pose proof (normalize_scenes_oversample σ scenes xs P Hl HP) as Hnorm.
  cbv zeta in Hnorm. fold n kz rep in Hnorm.
  pose proof (ceil_div_spec P n ltac:(lia) ltac:(lia)) as Hk. fold kz in Hk.
  assert (Hkpos : 0 < kz) by nia.
  assert (Hrep : Z.of_nat (length rep) = kz * n).
  { unfold rep. rewrite length_py_list_mul. lia. }
  assert (Hdiv : Z.of_nat (length rep) `div` P = 1).
  { rewrite Hrep. symmetry. apply (Z.div_unique _ _ 1 (kz * n - P)); lia. }
  rewrite Hdiv, Z.mul_1_r, py_slice_prefix in Hnorm by lia. fold ys in Hnorm.
  split; [done|]. split; [done|]. split; [|done].
  unfold ys. rewrite length_take. lia.
Qed.

(** With [2^31] processes the last boundary, [2^31], does not fit [int32]:
    it wraps to [-2^31], and the slice of the last process is empty. *)
Lemma split_last_boundary_wraps self σ scenes xs det :
  heap σ !! scenes = Some (OList xs) →
  0 < Z.of_nat (length xs) < 2147483648 →
  assigned_scenes
    (_get_sampler_args_for_scene_split self scenes 2147483647 2147483648
       None det σ) = Some [].
Proof.
  intros Hl HL.
  destruct (normalize_oversample_length σ scenes xs 2147483648 Hl HL ltac:(lia))
    as (_ & _ & Hlen & Hnorm).
  set (ys := take (Z.to_nat 2147483648) _) in *. clearbody ys.
  set (rep := py_list_mul xs _) in *. clearbody rep.
  set (out := stdout _) in *. clearbody out.
  erewrite split_after_normalize; [| exact Hnorm | | lia ].
  2:{ simpl. rewrite lookup_app_r by lia.
      by replace (S _ - _)%nat with 1%nat by lia. }
  simpl. rewrite lookup_app_r, Nat.sub_diag by lia.
  simpl. rewrite Hlen.
  assert (B0 : boundary 2147483648 2147483648 2147483647 = 2147483647)
    by (vm_compute; reflexivity).
  assert (B1 : boundary 2147483648 2147483648 (2147483647 + 1) = -2147483648)
    by (vm_compute; reflexivity).
  rewrite B0, B1. f_equal. apply py_slice_empty.
  rewrite Hlen. unfold slice_bound.
  destruct (Z.ltb_spec (-2147483648) 0); [|lia].
  destruct (Z.ltb_spec 2147483647 0); lia.
Qed.

(** C2, as stated, fails: with one scene and 2147483648 processes the
    normalized list has 2147483648 entries, but process 2147483647 is given
    no scene. *)
Lemma last_of_many_workers_gets_no_scene :
  heap one_scene !! 4%nat = Some (OList ["s0"]) ∧
  0 < Z.of_nat (length ["s0"]) < 2147483648 ∧
  assigned_scenes
    (_get_sampler_args_for_scene_split (ObjectManipThorPPO.cls []) 4%nat
       2147483647 2147483648 None false one_scene) = Some [].
Proof.
  split; [reflexivity|]. split; [simpl; lia|].
  apply (split_last_boundary_wraps _ _ _ ["s0"]); [reflexivity | simpl; lia].
Qed.

(** C2, amended.  For a scene list of length [L] and [P] processes with
    [2^31 > P > L > 0]: normalization returns a list [ys] that is the scene
    list repeated [k = ceil(P / L)] times and cut to the largest multiple of
    [P] not above its length; the length of [ys] is a multiple of [P]; and
    each of the [P] processes is assigned the slice of [ys] between its two
    boundaries of the partition of [ys], which holds at least one scene. *)
Theorem oversampling_normalization (self : experiment_config) (σ : state)
    (scenes : loc) (xs : list string) (P : nat) (seeds : option (list Z))
    (det : bool) :
  heap σ !! scenes = Some (OList xs) →
  (0 < length xs < P)%nat →
  Z.of_nat P < 2 ^ 31 →
  (∀ s, seeds = Some s → (P ≤ length s)%nat) →
  ∃ σ1 l1 ys (k : nat) inds,
    normalize_scenes scenes (Z.of_nat P) σ = (σ1, inr l1) ∧
    heap σ1 !! l1 = Some (OList ys) ∧
    ((k - 1) * length xs < P ≤ k * length xs)%nat ∧
    ys = take (P * (k * length xs / P)) (concat (replicate k xs)) ∧
    (Z.of_nat P | Z.of_nat (length ys)) ∧
    _partition_inds (Z.of_nat (length ys)) (Z.of_nat P) = inr inds ∧
    ∀ i, (i < P)%nat →
      ∃ lo hi a,
        inds !! i = Some lo ∧ inds !! S i = Some hi ∧
        assigned_scenes
          (_get_sampler_args_for_scene_split self scenes (Z.of_nat i)
             (Z.of_nat P) seeds det σ) = Some a ∧
        a = py_slice ys (Some lo) (Some hi) ∧
        (1 ≤ length a)%nat.
Proof.
  intros Hl HP H31 Hs.
  set (n := Z.of_nat (length xs)). set (p := Z.of_nat P).
  destruct (normalize_oversample_length σ scenes xs p Hl ltac:(lia) ltac:(lia))
    as (Hk & Hdiv & Hlen & Hnorm).
  fold n in Hk, Hdiv, Hlen, Hnorm.
  set (kz := ceil (float64 (inject_Z p / inject_Z n))) in *.
  set (rep := py_list_mul xs kz) in *.
  set (ys := take (Z.to_nat p) rep) in *.
  assert (Hkpos : 0 < kz) by nia.
  assert (Hrep : Z.of_nat (length rep) = kz * n).
  { unfold rep. rewrite length_py_list_mul. lia. }
  assert (Hys : length ys = P) by lia.
  eexists _, _, ys, (Z.to_nat kz), _. split; [exact Hnorm|].
  assert (Hl1 : (heap σ ++ [OList rep; OList ys]) !! S (length (heap σ)) = Some (OList ys)).
  { rewrite lookup_app_r by lia. by replace (S _ - _)%nat with 1%nat by lia. }
  split; [exact Hl1|]. split; [nia|]. split.
  - unfold ys, rep, py_list_mul. f_equal.
    assert (Z.of_nat (Z.to_nat kz * length xs / P) = 1) as Hd.
    { rewrite Nat2Z.inj_div, Nat2Z.inj_mul, Z2Nat.id by lia. fold n p.
      by rewrite <- Hrep. }
    nia.
  - split; [rewrite Hys; exists 1; lia|].
    split; [apply partition_inds_eq; lia|].
    intros i Hi. rewrite Hys. fold p.
    assert (Hpp : (p | p)) by (exists 1; lia).
    exists (boundary p p (Z.of_nat i)), (boundary p p (Z.of_nat i + 1)).
    eexists. split; [|split; [|split; [|split; [reflexivity|]]]].
    + rewrite list_lookup_fmap, lookup_seqZ_lt by lia. simpl.
      by rewrite Z.add_0_l.
    + rewrite list_lookup_fmap, lookup_seqZ_lt by lia. simpl.
      do 2 f_equal. lia.
    + erewrite split_after_normalize; [| exact Hnorm | exact Hl1 | lia ].
      simpl. destruct (seeded_ok seeds P (Z.of_nat i) Hs ltac:(lia)) as [sd ->].
      simpl. rewrite lookup_app_r, Nat.sub_diag by lia. simpl.
      by rewrite Hys.
    + rewrite !boundary_exact by (done || lia).
      rewrite Z.div_same by lia.
      rewrite py_slice_segment by lia.
      rewrite length_take, length_drop. lia.
Qed.

Lemma oversampling_normalization_witness :
  heap one_scene !! 4%nat = Some (OList ["s0"]) ∧
  (0 < length ["s0"] < 4)%nat ∧
  ∃ σ1 l1 ys (k : nat) inds,
    normalize_scenes 4%nat (Z.of_nat 4) one_scene = (σ1, inr l1) ∧
    heap σ1 !! l1 = Some (OList ys) ∧
    ((k - 1) * length ["s0"] < 4 ≤ k * length ["s0"])%nat ∧
    ys = take (4 * (k * length ["s0"] / 4)) (concat (replicate k ["s0"])) ∧
    (Z.of_nat 4 | Z.of_nat (length ys)) ∧
    _partition_inds (Z.of_nat (length ys)) (Z.of_nat 4) = inr inds ∧
    ∀ i, (i < 4)%nat →
      ∃ lo hi a,
        inds !! i = Some lo ∧ inds !! S i = Some hi ∧
        assigned_scenes
          (_get_sampler_args_for_scene_split (ObjectManipThorPPO.cls [])
             4%nat (Z.of_nat i) (Z.of_nat 4) None false one_scene) = Some a ∧
        a = py_slice ys (Some lo) (Some hi) ∧
        (1 ≤ length a)%nat.
Proof.
  split; [reflexivity|]. split; [simpl; lia|].
  apply (oversampling_normalization (ObjectManipThorPPO.cls []) one_scene
           4%nat ["s0"] 4 None false).
  - reflexivity.
  - simpl; lia.
  - simpl; lia.
  - intros s Hs. discriminate Hs.
Defined.

(** ** Two concrete scene lists *)

(** C3.  Five scenes ["s0" .. "s4"] and three workers: the boundary indices
    are [0, 2, 3, 5]; worker 0 is given ["s0", "s1"], worker 1 ["s2"] and
    worker 2 ["s3", "s4"]; and since [5 % 3 != 0] each call prints the
    warning of the branch for at least as many scenes as workers. *)
Theorem five_scenes_three_workers (self : experiment_config) :
  let run i := _get_sampler_args_for_scene_split self 4%nat i 3 None false
                 five_scenes in
  _partition_inds 5 3 = inr [0; 2; 3; 5] ∧
  assigned_scenes (run 0) = Some ["s0"; "s1"] ∧
  assigned_scenes (run 1) = Some ["s2"] ∧
  assigned_scenes (run 2) = Some ["s3"; "s4"] ∧
  5 `mod` 3 ≠ 0 ∧
  stdout (run 0).1 = [warning_divisor] ∧
  stdout (run 1).1 = [warning_divisor] ∧
  stdout (run 2).1 = [warning_divisor].
Proof. vm_compute. repeat split; congruence. Qed.

(** C4, as stated, fails: for the single scene ["s0"] and four workers the
    call prints nothing, because [4 % 1 == 0]. *)
Lemma one_scene_four_workers_no_warning :
  ¬ ∃ w, w ∈ stdout (_get_sampler_args_for_scene_split
                       (ObjectManipThorPPO.cls []) 4%nat 0 4 None false
                       one_scene).1.
Proof. vm_compute. intros [w Hw]. inversion Hw. Qed.

(** C4, amended.  For the single scene ["s0"] and four workers the list is
    replicated to ["s0", "s0", "s0", "s0"], each of the four workers is
    given exactly one "s0", and no warning is printed, the number of workers
    being a multiple of the number of scenes. *)
Theorem one_scene_four_workers (self : experiment_config) :
  let run i := _get_sampler_args_for_scene_split self 4%nat i 4 None false
                 one_scene in
  (∃ σ1 l1, normalize_scenes 4%nat 4 one_scene = (σ1, inr l1) ∧
            heap σ1 !! l1 = Some (OList ["s0"; "s0"; "s0"; "s0"])) ∧
  assigned_scenes (run 0) = Some ["s0"] ∧
  assigned_scenes (run 1) = Some ["s0"] ∧
  assigned_scenes (run 2) = Some ["s0"] ∧
  assigned_scenes (run 3) = Some ["s0"] ∧
  4 `mod` 1 = 0 ∧
  stdout (run 0).1 = [] ∧ stdout (run 1).1 = [] ∧
  stdout (run 2).1 = [] ∧ stdout (run 3).1 = [].
Proof.
  split.
  - eexists _, _. split; [vm_compute; reflexivity|]. vm_compute. reflexivity.
  - vm_compute. repeat split; congruence.
Qed.

(** ** Calls that raise *)

(** C7, as stated, fails: with an empty scene list and one process the call
    raises [ZeroDivisionError] (from [total_processes % len(scenes)]), not a
    [ConfigurationError]. *)
Lemma empty_scenes_zero_division :
  (_get_sampler_args_for_scene_split (ObjectManipThorPPO.cls []) 4%nat 0 1
     None false no_scene).2 ≠ inl ConfigurationError.
Proof. vm_compute. discriminate. Qed.

(** C7, amended.  A call with an empty scene list, or with
    [total_processes <= 0], returns nothing: it raises a built-in exception.
    [ZeroDivisionError] when [total_processes] is 0 or the list is empty and
    [total_processes > 0] (the [%] of the first test); [IndexError] when
    [total_processes] is -1 (the boundary array is empty); [ValueError] when
    [total_processes < -1] ([np.linspace] with a negative count). *)
Theorem invalid_split_raises (self : experiment_config) (σ : state)
    (scenes : loc) (xs : list string) (pi P : Z) (seeds : option (list Z))
    (det : bool) :
  heap σ !! scenes = Some (OList xs) →
  xs = [] ∨ P ≤ 0 →
  (_get_sampler_args_for_scene_split self scenes pi P seeds det σ).2
    = inl (invalid_split_error P).
Proof.
  intros Hl Hbad. unfold invalid_split_error.
  destruct (Z.ltb_spec P (-1)) as [Hlt|Hge].
  - (* total_processes < -1 *)
    unfold _get_sampler_args_for_scene_split.
    rewrite (bind_run _ _ _ _ _ (normalize_scenes_fits σ scenes xs P Hl ltac:(lia) ltac:(lia))).
    erewrite bind_run; [| apply len_run; by rewrite heap_emit].
    by rewrite partition_inds_negative.
  - destruct (Z.eqb_spec P (-1)) as [->|Hne].
    + (* total_processes = -1 *)
      unfold _get_sampler_args_for_scene_split.
      rewrite (bind_run _ _ _ _ _ (normalize_scenes_fits σ scenes xs (-1) Hl ltac:(lia) ltac:(lia))).
      erewrite bind_run; [| apply len_run; by rewrite heap_emit].
      rewrite partition_inds_minus_one.
      rewrite (bind_run _ _ _ _ _ (lift_run _ _)).
      erewrite bind_run; [| apply load_list_run; by rewrite heap_emit].
      by rewrite py_getitem_nil.
    + (* total_processes = 0, or no scene and total_processes > 0 *)
      unfold _get_sampler_args_for_scene_split.
      erewrite bind_fail; [done|].
      apply (normalize_scenes_zero_division _ _ xs); [done|].
      destruct Hbad as [->|]; [|lia].
      destruct (decide (P = 0)); [by left|right]. split; [done|lia].
Qed.

Lemma invalid_split_raises_witness :
  heap no_scene !! 4%nat = Some (OList []) ∧
  (_get_sampler_args_for_scene_split (ObjectManipThorPPO.cls []) 4%nat 0 1
     None false no_scene).2 = inl ZeroDivisionError.
Proof.
  split; [reflexivity|].
  apply (invalid_split_raises (ObjectManipThorPPO.cls []) no_scene 4%nat []
           0 1 None false eq_refl (or_introl eq_refl)).
Defined.

(** ** The [seeds] argument *)

(** C9.  For a non-empty scene list, [total_processes > 0] and a
    seeds list [s]: when [len(s) <= process_ind] the call raises
    [IndexError]; when [0 <= process_ind < len(s)] and
    [process_ind < total_processes] the call returns a dictionary whose
    ["seed"] is [s[process_ind]]; and any dictionary the call returns carries
    [s[process_ind]] as its ["seed"]. *)
Theorem seed_access (self : experiment_config) (σ : state) (scenes : loc)
    (xs : list string) (pi P : Z) (s : list Z) (det : bool) :
  heap σ !! scenes = Some (OList xs) →
  xs ≠ [] →
  0 < P →
  let r := _get_sampler_args_for_scene_split self scenes pi P (Some s) det σ in
  (Z.of_nat (length s) ≤ pi → r.2 = inl IndexError) ∧
  (0 ≤ pi < Z.of_nat (length s) → pi < P →
     ∃ res v, r.2 = inr res ∧ s !! Z.to_nat pi = Some v ∧ seed res = Some v) ∧
  (∀ res, r.2 = inr res → ∃ v, py_getitem s pi = inr v ∧ seed res = Some v).
Proof.
  intros Hl Hne HP r.
  destruct (normalize_scenes_returns σ scenes xs P Hl Hne HP)
    as (σ1 & l1 & ys & Hn & Hl1).
  split; [|split].
  - intros Hshort. unfold r.
    destruct (decide (pi < P)) as [Hin|Hout].
    + erewrite split_after_normalize; [| exact Hn | exact Hl1 | lia].
      simpl. by rewrite py_getitem_out.
    + eapply split_process_out_of_range; [exact Hn | exact Hl1 | lia].
  - intros Hin HinP. unfold r.
    erewrite split_after_normalize; [| exact Hn | exact Hl1 | lia].
    destruct (seeded_in_range s pi Hin) as (v & Hv & ->).
    simpl. by eexists _, v.
  - intros res Hres. unfold r in Hres.
    destruct (_get_sampler_args_for_scene_split _ _ _ _ _ _ _) as [σ' [e|res']] eqn:E;
      [discriminate|].
    injection Hres as ->. by eapply split_returns_seed.
Qed.

Lemma seed_access_witness :
  heap five_scenes !! 4%nat = Some (OList ["s0"; "s1"; "s2"; "s3"; "s4"]) ∧
  ∃ res v,
    (_get_sampler_args_for_scene_split (ObjectManipThorPPO.cls []) 4%nat 1 3
       (Some [10; 20; 30]) false five_scenes).2 = inr res ∧
    [10; 20; 30] !! Z.to_nat 1 = Some v ∧ seed res = Some v.
Proof.
  split; [reflexivity|].
  apply (seed_access (ObjectManipThorPPO.cls []) five_scenes 4%nat
           ["s0"; "s1"; "s2"; "s3"; "s4"] 1 3 [10; 20; 30] false).
  - reflexivity.
  - discriminate.
  - lia.
  - simpl; lia.
  - lia.
Defined.

(** ** The scene lists are never written *)

Lemma lists_kept_refl σ : lists_kept σ σ.
Proof. by intros l xs H. Qed.

Lemma lists_kept_trans σ1 σ2 σ3 :
  lists_kept σ1 σ2 → lists_kept σ2 σ3 → lists_kept σ1 σ3.
Proof. intros H12 H23 l xs H. by apply H23, H12. Qed.

Lemma keeps_ret {A} (a : A) : keeps_lists (ret a).
Proof. intros σ. apply lists_kept_refl. Qed.

Lemma keeps_raise {A} e : keeps_lists (@raise A e).
Proof. intros σ. apply lists_kept_refl. Qed.

Lemma keeps_lift {A} (r : exn + A) : keeps_lists (lift r).
Proof. destruct r; [apply keeps_raise | apply keeps_ret]. Qed.

Lemma keeps_bind {A B} (m : M A) (f : A → M B) :
  keeps_lists m → (∀ a, keeps_lists (f a)) → keeps_lists (bind m f).
Proof.
  intros Hm Hf σ. unfold bind. specialize (Hm σ).
  destruct (m σ) as [σ' [e|a]]; [done|].
  eapply lists_kept_trans; [exact Hm | apply Hf].
Qed.

Lemma keeps_if {A} (b : bool) (m1 m2 : M A) :
  keeps_lists m1 → keeps_lists m2 → keeps_lists (if b then m1 else m2).
Proof. by destruct b. Qed.

Lemma keeps_alloc o : keeps_lists (alloc o).
Proof.
  intros σ l xs H. simpl. rewrite lookup_app_l; [done|].
  by eapply lookup_lt_Some.
Qed.

Lemma keeps_load_list l : keeps_lists (load_list l).
Proof.
  intros σ. unfold load_list.
  destruct (heap σ !! l) as [[?|?]|]; apply lists_kept_refl.
Qed.

Lemma keeps_load_dict l : keeps_lists (load_dict l).
Proof.
  intros σ. unfold load_dict.
  destruct (heap σ !! l) as [[?|?]|]; apply lists_kept_refl.
Qed.

Lemma keeps_print s : keeps_lists (print s).
Proof. by intros σ l xs H. Qed.

Lemma keeps_len l : keeps_lists (len l).
Proof.
  apply keeps_bind; [apply keeps_load_list | intros; apply keeps_ret].
Qed.

(** Writing back a dictionary at a location that holds a dictionary leaves
    the lists alone. *)
Lemma store_dict_kept σ l d d' :
  heap σ !! l = Some (ODict d) → lists_kept σ (store l (ODict d') σ).1.
Proof.
  intros Hl k xs Hk. simpl.
  destruct (decide (l = k)) as [->|Hne]; [unfold loc in *; congruence|].
  by rewrite list_lookup_insert_ne.
Qed.

Lemma keeps_dict_setitem l key v : keeps_lists (dict_setitem l key v).
Proof.
  intros σ. unfold dict_setitem, bind, load_dict.
  destruct (heap σ !! l) as [[?|d]|] eqn:Hl; try apply lists_kept_refl.
  by eapply store_dict_kept.
Qed.

Lemma keeps_dict_update l other : keeps_lists (dict_update l other).
Proof.
  intros σ. unfold dict_update, bind, load_dict.
  destruct (heap σ !! l) as [[?|d]|] eqn:Hl; try apply lists_kept_refl.
  destruct (heap σ !! other) as [[?|o]|] eqn:Ho; try apply lists_kept_refl.
  by eapply store_dict_kept.
Qed.

Create HintDb keeps.

#[local] Hint Resolve keeps_ret keeps_raise keeps_lift keeps_alloc
  keeps_load_list keeps_load_dict keeps_print keeps_len keeps_dict_setitem
  keeps_dict_update : keeps.

#[local] Hint Extern 2 (keeps_lists (bind _ _)) =>
  apply keeps_bind; [| intros ?] : keeps.
#[local] Hint Extern 2 (keeps_lists (if _ then _ else _)) =>
  apply keeps_if : keeps.
#[local] Hint Extern 2 (keeps_lists (match ?x with _ => _ end)) =>
  destruct x : keeps.

Lemma keeps_normalize_scenes scenes P : keeps_lists (normalize_scenes scenes P).
Proof. unfold normalize_scenes. auto 30 with keeps. Qed.

Lemma keeps_scene_split self scenes pi P seeds det :
  keeps_lists (_get_sampler_args_for_scene_split self scenes pi P seeds det).
Proof.
  unfold _get_sampler_args_for_scene_split.
  pose proof keeps_normalize_scenes. auto 30 with keeps.
Qed.

#[local] Hint Resolve keeps_scene_split : keeps.

Lemma keeps_attach_env_args self pi devices res :
  keeps_lists (ObjectManipThorPPO.attach_env_args self pi devices res).
Proof. unfold ObjectManipThorPPO.attach_env_args. auto 30 with keeps. Qed.

Lemma keeps_attach_x_display devices res :
  keeps_lists (ObjectNavThorA2C.attach_x_display devices res).
Proof. unfold ObjectNavThorA2C.attach_x_display. auto 30 with keeps. Qed.

#[local] Hint Resolve keeps_attach_env_args keeps_attach_x_display : keeps.

(** C10.  A list object that exists before a call (in particular the list
    passed as [scenes], or the class lists [TRAIN_SCENES], [VALID_SCENES]
    and [TEST_SCENES]) holds the same elements in the same order after it,
    whatever the arguments and whether the call returns or raises: for
    the scene-split method and for the three public methods of both
    classes. *)
Theorem scene_lists_never_mutated (self : experiment_config) (σ : state)
    (l : loc) (xs : list string) :
  heap σ !! l = Some (OList xs) →
  (∀ scenes pi P seeds det,
     heap (_get_sampler_args_for_scene_split self scenes pi P seeds det σ).1 !! l
       = Some (OList xs)) ∧
  (∀ pi P devices seeds det,
     heap (ObjectManipThorPPO.train_task_sampler_args self pi P devices seeds det σ).1 !! l
       = Some (OList xs) ∧
     heap (ObjectManipThorPPO.valid_task_sampler_args self pi P devices seeds det σ).1 !! l
       = Some (OList xs) ∧
     heap (ObjectManipThorPPO.test_task_sampler_args self pi P devices seeds det σ).1 !! l
       = Some (OList xs) ∧
     heap (ObjectNavThorA2C.train_task_sampler_args self pi P devices seeds det σ).1 !! l
       = Some (OList xs) ∧
     heap (ObjectNavThorA2C.valid_task_sampler_args self pi P devices seeds det σ).1 !! l
       = Some (OList xs) ∧
     heap (ObjectNavThorA2C.test_task_sampler_args self pi P devices seeds det σ).1 !! l
       = Some (OList xs)).
Proof.
  intros Hl. split.
  - intros. by apply keeps_scene_split.
  - intros. repeat split.
    all: match goal with |- heap (?m ?s).1 !! _ = _ =>
           assert (Hk : keeps_lists m); [| by apply Hk] end.
    all: unfold ObjectManipThorPPO.train_task_sampler_args,
           ObjectManipThorPPO.valid_task_sampler_args,
           ObjectManipThorPPO.test_task_sampler_args,
           ObjectNavThorA2C.train_task_sampler_args,
           ObjectNavThorA2C.valid_task_sampler_args,
           ObjectNavThorA2C.test_task_sampler_args.
    all: auto 30 with keeps.
Qed.

Lemma scene_lists_never_mutated_witness :
  heap ObjectNavThorA2C.initial !! 0%nat = Some (OList ["FloorPlan1_physics"]) ∧
  heap (ObjectNavThorA2C.train_task_sampler_args (ObjectNavThorA2C.cls []) 0 4
          (Some [0]) None false ObjectNavThorA2C.initial).1 !! 0%nat
    = Some (OList ["FloorPlan1_physics"]).
Proof.
  split; [reflexivity|].
  destruct (scene_lists_never_mutated (ObjectNavThorA2C.cls [])
              ObjectNavThorA2C.initial 0%nat ["FloorPlan1_physics"] eq_refl)
    as [_ H].
  destruct (H 0 4 (Some [0]) None false) as (_ & _ & _ & Hnav & _).
  exact Hnav.
Defined.

(** ** The [devices] argument *)

Lemma fails_bind_r {A B} (m : M A) (f : A → M B) σ :
  (∀ a σ', fails (f a σ')) → fails (bind m f σ).
Proof.
  intros Hf. unfold bind. destruct (m σ) as [σ' [e|a]]; [by exists e|].
  apply Hf.
Qed.

Lemma fails_bind_l {A B} (m : M A) (f : A → M B) σ :
  fails (m σ) → fails (bind m f σ).
Proof.
  intros [e He]. unfold bind. destruct (m σ) as [σ' [e'|a]]; [by exists e'|].
  discriminate.
Qed.

(** [len(None)] is evaluated before anything is written. *)
Lemma attach_env_args_none_fails self pi res σ :
  fails (ObjectManipThorPPO.attach_env_args self pi None res σ).
Proof.
  unfold ObjectManipThorPPO.attach_env_args.
  apply fails_bind_r. intros d σ1.
  apply fails_bind_r. intros [] σ2.
  apply fails_bind_l. by exists TypeError.
Qed.

Lemma attach_x_display_none_fails res σ :
  fails (ObjectNavThorA2C.attach_x_display None res σ).
Proof.
  unfold ObjectNavThorA2C.attach_x_display.
  apply fails_bind_l. by exists TypeError.
Qed.

(** C8.  With [devices = None], the declared default, each of the three
    public methods of both classes raises, whatever the other arguments and
    the state: when the scene split succeeds, [len(devices)] is evaluated
    and is a type error. *)
Theorem devices_none_always_fails (self : experiment_config) (pi P : Z)
    (seeds : option (list Z)) (det : bool) (σ : state) :
  fails (ObjectManipThorPPO.train_task_sampler_args self pi P None seeds det σ) ∧
  fails (ObjectManipThorPPO.valid_task_sampler_args self pi P None seeds det σ) ∧
  fails (ObjectManipThorPPO.test_task_sampler_args self pi P None seeds det σ) ∧
  fails (ObjectNavThorA2C.train_task_sampler_args self pi P None seeds det σ) ∧
  fails (ObjectNavThorA2C.valid_task_sampler_args self pi P None seeds det σ) ∧
  fails (ObjectNavThorA2C.test_task_sampler_args self pi P None seeds det σ).
Proof.
  repeat split.
  all: unfold ObjectManipThorPPO.train_task_sampler_args,
         ObjectManipThorPPO.valid_task_sampler_args,
         ObjectManipThorPPO.test_task_sampler_args,
         ObjectNavThorA2C.train_task_sampler_args,
         ObjectNavThorA2C.valid_task_sampler_args,
         ObjectNavThorA2C.test_task_sampler_args.
  all: apply fails_bind_r; intros res σ1.
  all: first [ apply attach_env_args_none_fails
             | apply attach_x_display_none_fails
             | apply fails_bind_r; intros n σ2;
               first [ apply attach_env_args_none_fails
                     | apply attach_x_display_none_fails ] ].
Qed.

(** When the scene split returns, the error is the type error of
    [len(None)]. *)
Lemma devices_none_type_error self pi P seeds det σ σ1 res :
  _get_sampler_args_for_scene_split self (TRAIN_SCENES self) pi P seeds det σ
    = (σ1, inr res) →
  (ObjectNavThorA2C.train_task_sampler_args self pi P None seeds det σ).2
    = inl TypeError.
Proof.
  intros H. unfold ObjectNavThorA2C.train_task_sampler_args.
  by rewrite (bind_run _ _ _ _ _ H).
Qed.

(** ** The display offset and the environment arguments *)

(** The value bound to ["x_display"] by the methods of
    [ObjectManipThorPPO], once [len(devices) > 0] has been evaluated. *)
Lemma display_by_process_run (devices : list Z) (pi : Z) σ :
  (if 0 <? Z.of_nat (length devices) then
     n <- lift (py_len_opt (Some devices)) ;;
     k <- lift (py_mod pi n) ;;
     dev <- lift (py_getitem_opt (Some devices) k) ;;
     ret (VStr (format_display dev))
   else ret VNone)%py σ
  = (σ, inr (display_by_process devices pi)).
Proof.
  destruct devices as [|d ds]; [done|].
  set (devs := d :: ds). assert (Hne : devs ≠ []) by done.
  assert (Hlen : 0 < Z.of_nat (length devs)) by (simpl; lia).
  destruct (Z.ltb_spec 0 (Z.of_nat (length devs))); [|lia].
  simpl py_len_opt. rewrite (bind_run _ _ _ _ _ (lift_run _ _)).
  rewrite py_mod_nonzero by lia.
  rewrite (bind_run _ _ _ _ _ (lift_run _ _)).
  simpl py_getitem_opt. rewrite py_getitem_mod by done.
  by rewrite (bind_run _ _ _ _ _ (lift_run _ _)).
Qed.

(** The value bound to ["x_display"] by the methods of [ObjectNavThorA2C]. *)
Lemma display_first_run (devices : list Z) σ :
  (if 0 <? Z.of_nat (length devices) then
     dev <- lift (py_getitem_opt (Some devices) 0) ;;
     ret (VStr (format_display dev))
   else ret VNone)%py σ
  = (σ, inr (display_first devices)).
Proof. by destruct devices. Qed.

(** The last statements of a method of [ObjectManipThorPPO]: the
    environment arguments are a new dictionary with the class's [ENV_ARGS]
    entries and ["x_display"]; no object that existed before is written. *)
Lemma attach_env_args_run self pi devices res σ env :
  heap σ !! ENV_ARGS self = Some (ODict env) →
  ObjectManipThorPPO.attach_env_args self pi (Some devices) res σ =
    (mkState (heap σ ++
        [ODict (<["x_display" := display_by_process devices pi]> (env ∪ ∅))])
       (stdout σ),
     inr (set_env_args (length (heap σ)) res)).
Proof.
  intros Henv. unfold ObjectManipThorPPO.attach_env_args.
  rewrite (bind_run _ _ _ _ _ (alloc_run _ _)).
  cbn [env_args set_env_args].
  erewrite bind_run.
  2:{ apply (dict_update_run _ _ _ ∅ env); simpl.
      - by rewrite lookup_app_r, Nat.sub_diag by lia.
      - rewrite lookup_app_l; [done|]. by eapply lookup_lt_Some. }
  cbn [heap stdout]. rewrite insert_last.
  rewrite (bind_run (lift (py_len_opt (Some devices))) _ _ _
             (Z.of_nat (length devices)) eq_refl).
  rewrite (bind_run _ _ _ _ _ (display_by_process_run _ _ _)).
  erewrite bind_run.
  2:{ apply dict_setitem_run. simpl. by rewrite lookup_app_r, Nat.sub_diag by lia. }
  cbn [heap stdout]. by rewrite insert_last.
Qed.

(** The last statement of a method of [ObjectNavThorA2C]: ["x_display"] is
    written into the dictionary [res["env_args"]] refers to. *)
Lemma attach_x_display_run devices res σ env :
  heap σ !! env_args res = Some (ODict env) →
  ObjectNavThorA2C.attach_x_display (Some devices) res σ =
    (mkState (<[env_args res :=
                 ODict (<["x_display" := display_first devices]> env)]> (heap σ))
       (stdout σ),
     inr res).
Proof.
  intros Henv. unfold ObjectNavThorA2C.attach_x_display.
  rewrite (bind_run (lift (py_len_opt (Some devices))) _ _ _
             (Z.of_nat (length devices)) eq_refl).
  rewrite (bind_run _ _ _ _ _ (display_first_run _ _)).
  by rewrite (bind_run _ _ _ _ _ (dict_setitem_run _ _ _ _ _ Henv)).
Qed.

(** *** The scene split only allocates *)

Lemma heap_extends_refl σ : heap_extends σ σ.
Proof. exists []. by rewrite app_nil_r. Qed.

Lemma heap_extends_trans σ1 σ2 σ3 :
  heap_extends σ1 σ2 → heap_extends σ2 σ3 → heap_extends σ1 σ3.
Proof.
  intros [n1 H1] [n2 H2]. exists (n1 ++ n2). by rewrite H2, H1, app_assoc.
Qed.

Lemma heap_extends_lookup σ σ' l o :
  heap_extends σ σ' → heap σ !! l = Some o → heap σ' !! l = Some o.
Proof.
  intros [new ->] H. rewrite lookup_app_l; [done|]. by eapply lookup_lt_Some.
Qed.

Lemma allocates_ret {A} (a : A) : only_allocates (ret a).
Proof. intros σ. apply heap_extends_refl. Qed.

Lemma allocates_raise {A} e : only_allocates (@raise A e).
Proof. intros σ. apply heap_extends_refl. Qed.

Lemma allocates_lift {A} (r : exn + A) : only_allocates (lift r).
Proof. destruct r; [apply allocates_raise | apply allocates_ret]. Qed.

Lemma allocates_bind {A B} (m : M A) (f : A → M B) :
  only_allocates m → (∀ a, only_allocates (f a)) → only_allocates (bind m f).
Proof.
  intros Hm Hf σ. unfold bind. specialize (Hm σ).
  destruct (m σ) as [σ' [e|a]]; [done|].
  eapply heap_extends_trans; [exact Hm | apply Hf].
Qed.

Lemma allocates_if {A} (b : bool) (m1 m2 : M A) :
  only_allocates m1 → only_allocates m2 → only_allocates (if b then m1 else m2).
Proof. by destruct b. Qed.

Lemma allocates_alloc o : only_allocates (alloc o).
Proof. intros σ. by exists [o]. Qed.

Lemma allocates_load_list l : only_allocates (load_list l).
Proof.
  intros σ. unfold load_list.
  destruct (heap σ !! l) as [[?|?]|]; apply heap_extends_refl.
Qed.

Lemma allocates_print s : only_allocates (print s).
Proof. intros σ. exists []. simpl. by rewrite app_nil_r. Qed.

Lemma allocates_len l : only_allocates (len l).
Proof.
  apply allocates_bind; [apply allocates_load_list | intros; apply allocates_ret].
Qed.

Create HintDb allocates.

#[local] Hint Resolve allocates_ret allocates_raise allocates_lift
  allocates_alloc allocates_load_list allocates_print allocates_len : allocates.
#[local] Hint Extern 2 (only_allocates (bind _ _)) =>
  apply allocates_bind; [| intros ?] : allocates.
#[local] Hint Extern 2 (only_allocates (if _ then _ else _)) =>
  apply allocates_if : allocates.
#[local] Hint Extern 2 (only_allocates (match ?x with _ => _ end)) =>
  destruct x : allocates.

Lemma allocates_normalize_scenes scenes P :
  only_allocates (normalize_scenes scenes P).
Proof. unfold normalize_scenes. auto 30 with allocates. Qed.

Lemma allocates_scene_split self scenes pi P seeds det :
  only_allocates (_get_sampler_args_for_scene_split self scenes pi P seeds det).
Proof.
  unfold _get_sampler_args_for_scene_split.
  pose proof allocates_normalize_scenes. auto 30 with allocates.
Qed.

(** *** [ObjectManipThorPPO]: a new dictionary per call, chosen by process index *)

Lemma manip_after_split self σ σ1 env pi devices r σ' res :
  heap_extends σ σ1 →
  heap σ !! ENV_ARGS self = Some (ODict env) →
  ObjectManipThorPPO.attach_env_args self pi (Some devices) r σ1 = (σ', inr res) →
  x_display (σ', inr res) = Some (display_by_process devices pi) ∧
  dict_at σ' (ENV_ARGS self) = Some env ∧
  heap_extends σ σ'.
Proof.
  intros Hext Henv H.
  pose proof (heap_extends_lookup _ _ _ _ Hext Henv) as Henv1.
  rewrite (attach_env_args_run _ _ _ _ _ _ Henv1) in H.
  injection H as <- <-. split; [|split].
  - unfold x_display, dict_at. simpl.
    rewrite lookup_app_r, Nat.sub_diag by lia. simpl.
    by rewrite lookup_insert_eq.
  - unfold dict_at. simpl. rewrite lookup_app_l by (by eapply lookup_lt_Some).
    by rewrite Henv1.
  - eapply heap_extends_trans; [exact Hext|]. by eexists.
Qed.

(** In [ObjectManipThorPPO], a call that returns has bound ["x_display"] to
    ["0.%d" % devices[process_ind % len(devices)]] ([None] for an empty
    list) in a dictionary of its own, and has left the class's [ENV_ARGS] and
    every other object that existed before as they were. *)
Lemma manip_display_offset self σ env pi P devices seeds det σ' res :
  heap σ !! ENV_ARGS self = Some (ODict env) →
  ObjectManipThorPPO.train_task_sampler_args self pi P (Some devices) seeds det σ
    = (σ', inr res) ∨
  ObjectManipThorPPO.valid_task_sampler_args self pi P (Some devices) seeds det σ
    = (σ', inr res) ∨
  ObjectManipThorPPO.test_task_sampler_args self pi P (Some devices) seeds det σ
    = (σ', inr res) →
  x_display (σ', inr res) = Some (display_by_process devices pi) ∧
  dict_at σ' (ENV_ARGS self) = Some env ∧
  heap_extends σ σ'.
Proof.
  intros Henv [H|[H|H]].
  - unfold ObjectManipThorPPO.train_task_sampler_args in H.
    apply bind_inr in H as (σ1 & r1 & Hs & H).
    pose proof (allocates_scene_split self (TRAIN_SCENES self) pi P seeds det σ) as Hext.
    rewrite Hs in Hext. by eapply manip_after_split.
  - unfold ObjectManipThorPPO.valid_task_sampler_args in H.
    apply bind_inr in H as (σ1 & r1 & Hs & H).
    apply bind_inr in H as (σ2 & n & Hn & H). apply len_inr in Hn as ->.
    pose proof (allocates_scene_split self (VALID_SCENES self) pi P seeds det σ) as Hext.
    rewrite Hs in Hext. by eapply manip_after_split.
  - unfold ObjectManipThorPPO.test_task_sampler_args in H.
    apply bind_inr in H as (σ1 & r1 & Hs & H).
    apply bind_inr in H as (σ2 & n & Hn & H). apply len_inr in Hn as ->.
    pose proof (allocates_scene_split self (TEST_SCENES self) pi P seeds det σ) as Hext.
    rewrite Hs in Hext. by eapply manip_after_split.
Qed.

(** *** [ObjectNavThorA2C]: the class dictionary, first device only *)

Lemma nav_after_split self σ σ1 env devices r σ' res :
  heap_extends σ σ1 →
  heap σ !! ENV_ARGS self = Some (ODict env) →
  env_args r = ENV_ARGS self →
  ObjectNavThorA2C.attach_x_display (Some devices) r σ1 = (σ', inr res) →
  env_args res = ENV_ARGS self ∧
  x_display (σ', inr res) = Some (display_first devices) ∧
  dict_at σ' (ENV_ARGS self)
    = Some (<["x_display" := display_first devices]> env).
Proof.
  intros Hext Henv Hr H.
  pose proof (heap_extends_lookup _ _ _ _ Hext Henv) as Henv1.
  rewrite <- Hr in Henv1.
  rewrite (attach_x_display_run _ _ _ _ Henv1) in H.
  injection H as <- <-.
  assert (Hd : dict_at
            (mkState (<[env_args r := ODict (<["x_display" := display_first devices]> env)]>
                        (heap σ1)) (stdout σ1)) (env_args r)
          = Some (<["x_display" := display_first devices]> env)).
  { apply dict_at_insert. by eapply lookup_lt_Some. }
  split; [done|]. split.
  - unfold x_display. rewrite Hd. by rewrite lookup_insert_eq.
  - by rewrite <- Hr.
Qed.

(** X14.  In [ObjectNavThorA2C], a call that returns has written ["x_display"]
    into the class's [ENV_ARGS] object, which the returned dictionary
    refers to, and the value is ["0.%d" % devices[0]] ([None] for an empty
    list) whatever the process index. *)
Lemma nav_display_offset self σ env pi P devices seeds det σ' res :
  heap σ !! ENV_ARGS self = Some (ODict env) →
  ObjectNavThorA2C.train_task_sampler_args self pi P (Some devices) seeds det σ
    = (σ', inr res) ∨
  ObjectNavThorA2C.valid_task_sampler_args self pi P (Some devices) seeds det σ
    = (σ', inr res) ∨
  ObjectNavThorA2C.test_task_sampler_args self pi P (Some devices) seeds det σ
    = (σ', inr res) →
  env_args res = ENV_ARGS self ∧
  x_display (σ', inr res) = Some (display_first devices) ∧
  dict_at σ' (ENV_ARGS self)
    = Some (<["x_display" := display_first devices]> env).
Proof.
  intros Henv [H|[H|H]].
  - unfold ObjectNavThorA2C.train_task_sampler_args in H.
    apply bind_inr in H as (σ1 & r1 & Hs & H).
    pose proof (allocates_scene_split self (TRAIN_SCENES self) pi P seeds det σ) as Hext.
    rewrite Hs in Hext. apply split_returns_env_args in Hs.
    refine (nav_after_split _ _ _ _ _ _ _ _ Hext Henv _ H). exact Hs.
  - unfold ObjectNavThorA2C.valid_task_sampler_args in H.
    apply bind_inr in H as (σ1 & r1 & Hs & H).
    apply bind_inr in H as (σ2 & n & Hn & H). apply len_inr in Hn as ->.
    pose proof (allocates_scene_split self (VALID_SCENES self) pi P seeds det σ) as Hext.
    rewrite Hs in Hext. apply split_returns_env_args in Hs.
    refine (nav_after_split _ _ _ _ _ _ _ _ Hext Henv _ H). exact Hs.
  - unfold ObjectNavThorA2C.test_task_sampler_args in H.
    apply bind_inr in H as (σ1 & r1 & Hs & H).
    apply bind_inr in H as (σ2 & n & Hn & H). apply len_inr in Hn as ->.
    pose proof (allocates_scene_split self (TEST_SCENES self) pi P seeds det σ) as Hext.
    rewrite Hs in Hext. apply split_returns_env_args in Hs.
    refine (nav_after_split _ _ _ _ _ _ _ _ Hext Henv _ H). exact Hs.
Qed.

(** C5.  In [ObjectNavThorA2C] the display offset does not depend on the
    process index: with [devices = [3, 7]], [process_ind = 1] and two
    processes, [devices[process_ind % len(devices)]] is 7, yet each of the
    three methods binds ["x_display"] to ["0.3"], from [devices[0]].  On the
    same arguments the method of [ObjectManipThorPPO] binds ["0.7"]. *)
Theorem nav_display_ignores_process_index :
  let devices := [3; 7] in
  let nav m := m (ObjectNavThorA2C.cls []) 1 2 (Some devices) None false
                 ObjectNavThorA2C.initial in
  py_getitem devices (1 `mod` Z.of_nat (length devices)) = inr 7 ∧
  x_display (nav ObjectNavThorA2C.train_task_sampler_args) = Some (VStr "0.3") ∧
  x_display (nav ObjectNavThorA2C.valid_task_sampler_args) = Some (VStr "0.3") ∧
  x_display (nav ObjectNavThorA2C.test_task_sampler_args) = Some (VStr "0.3") ∧
  x_display (ObjectManipThorPPO.train_task_sampler_args
               (ObjectManipThorPPO.cls []) 1 2 (Some devices) None false
               ObjectManipThorPPO.initial) = Some (VStr "0.7").
Proof. vm_compute. repeat split; reflexivity. Qed.

(** C6.  In [ObjectNavThorA2C] a call writes the class-level [ENV_ARGS]
    dictionary: before [train_task_sampler_args(0, 1, devices=[0])] it has
    no ["x_display"] entry, after the call it has ["x_display": "0.0"], and
    the returned dictionary refers to that same object; a later call with
    [devices=[5]] changes what the first result holds to ["0.5"].  On the
    same arguments the method of [ObjectManipThorPPO] leaves [ENV_ARGS] as it
    was. *)
Theorem nav_call_writes_class_env_args :
  let self := ObjectNavThorA2C.cls [] in
  let σ0 := ObjectNavThorA2C.initial in
  let r1 := ObjectNavThorA2C.train_task_sampler_args self 0 1 (Some [0]) None
              false σ0 in
  let r2 := ObjectNavThorA2C.valid_task_sampler_args self 0 1 (Some [5]) None
              false r1.1 in
  let manip := ObjectManipThorPPO.train_task_sampler_args
                 (ObjectManipThorPPO.cls []) 0 1 (Some [0]) None false
                 ObjectManipThorPPO.initial in
  (∃ d0, dict_at σ0 (ENV_ARGS self) = Some d0 ∧ d0 !! "x_display" = None) ∧
  (∃ res d1, r1.2 = inr res ∧ env_args res = ENV_ARGS self ∧
             dict_at r1.1 (ENV_ARGS self) = Some d1 ∧
             d1 !! "x_display" = Some (VStr "0.0")) ∧
  dict_at r1.1 (ENV_ARGS self) ≠ dict_at σ0 (ENV_ARGS self) ∧
  x_display r1 = Some (VStr "0.0") ∧
  x_display (r2.1, r1.2) = Some (VStr "0.5") ∧
  dict_at manip.1 (ENV_ARGS (ObjectManipThorPPO.cls []))
    = dict_at ObjectManipThorPPO.initial (ENV_ARGS (ObjectManipThorPPO.cls [])).
Proof.
  split; [|split; [|split; [|split; [|split]]]].
  - eexists. split; [vm_compute; reflexivity|]. vm_compute. reflexivity.
  - eexists _, _. split; [vm_compute; reflexivity|].
    split; [reflexivity|]. split; [vm_compute; reflexivity|].
    vm_compute. reflexivity.
  - vm_compute. discriminate.
  - vm_compute. reflexivity.
  - vm_compute. reflexivity.
  - vm_compute. reflexivity.
Qed.

(** * Further properties *)

(** ** The boundary indices in general *)

(** X1.  For [0 <= n < 2^31] items and [num_parts > 0] with
    [n * num_parts <= 2^50], [_partition_inds] returns [num_parts + 1]
    indices that start at 0, end at [n], never decrease, and whose
    consecutive differences are [n // num_parts] or one more. *)
Theorem partition_inds_shape (n P : Z) :
  0 ≤ n < 2 ^ 31 → 0 < P → n * P ≤ 2 ^ 50 →
  ∃ inds : list Z,
    _partition_inds n P = inr inds ∧
    length inds = S (Z.to_nat P) ∧
    inds !! 0%nat = Some 0 ∧
    inds !! Z.to_nat P = Some n ∧
    ∀ (i : nat) a b, inds !! i = Some a → inds !! S i = Some b →
      a ≤ b ∧ n `div` P ≤ b - a ≤ n `div` P + 1.
Proof.
  intros Hn HP HnP. exists (boundary n P <$> seqZ 0 (P + 1)).
  split; [by apply partition_inds_eq|].
  split; [rewrite length_fmap, length_seqZ; lia|].
  split; [rewrite list_lookup_fmap, lookup_seqZ_lt by lia; simpl;
          by rewrite boundary_0|].
  split; [rewrite list_lookup_fmap, lookup_seqZ_lt by lia; simpl;
          by rewrite Z.add_0_l, Z2Nat.id, boundary_last by lia|].
  intros i a b Ha Hb.
  rewrite list_lookup_fmap in Ha, Hb.
  destruct (seqZ 0 (P + 1) !! i) as [x|] eqn:Hx; [|discriminate].
  destruct (seqZ 0 (P + 1) !! S i) as [y|] eqn:Hy; [|discriminate].
  apply lookup_seqZ in Hx as [-> _]. apply lookup_seqZ in Hy as [-> Hi].
  simpl in Ha, Hb. injection Ha as <-. injection Hb as <-.
  replace (0 + Z.of_nat (S i)) with (0 + Z.of_nat i + 1) by lia.
  pose proof (boundary_step n P (0 + Z.of_nat i) HP ltac:(lia) Hn HnP).
  assert (0 ≤ n `div` P) by (apply Z.div_pos; lia). lia.
Qed.

Lemma partition_inds_shape_witness :
  ∃ inds : list Z,
    _partition_inds 7 2 = inr inds ∧
    length inds = S (Z.to_nat 2) ∧
    inds !! 0%nat = Some 0 ∧
    inds !! Z.to_nat 2 = Some 7 ∧
    ∀ (i : nat) a b, inds !! i = Some a → inds !! S i = Some b →
      a ≤ b ∧ 7 `div` 2 ≤ b - a ≤ 7 `div` 2 + 1.
Proof. apply (partition_inds_shape 7 2); lia. Defined.

(** X2.  When [num_parts > 0] divides [n] and [n] is in the range of
    [int32], the boundaries are the multiples of [n // num_parts]: all parts
    have the same size. *)
Theorem partition_inds_exact (n P : Z) :
  0 < P → - 2 ^ 31 ≤ n < 2 ^ 31 → (P | n) →
  _partition_inds n P = inr ((λ i, i * (n `div` P)) <$> seqZ 0 (P + 1)).
Proof.
  intros HP Hn Hd. rewrite partition_inds_eq by done. f_equal.
  apply list_fmap_ext. intros i x Hx. apply lookup_seqZ in Hx as [-> Hi].
  apply boundary_exact; (done || lia).
Qed.

Lemma partition_inds_exact_witness :
  _partition_inds 6 3 = inr ((λ i, i * (6 `div` 3)) <$> seqZ 0 (3 + 1)).
Proof. apply (partition_inds_exact 6 3); [lia | lia | by exists 2]. Defined.

(** X3.  Outside [num_parts > 0]: for 0 parts the result is the single index 0,
    for -1 it is empty, and below -1 [np.linspace] raises [ValueError];
    whatever [n] is. *)
Theorem partition_inds_no_parts (n : Z) :
  _partition_inds n 0 = inr [0] ∧
  _partition_inds n (-1) = inr [] ∧
  ∀ P, P < -1 → _partition_inds n P = inl ValueError.
Proof.
  split; [reflexivity|]. split; [reflexivity|]. apply partition_inds_negative.
Qed.

Lemma partition_inds_no_parts_witness :
  _partition_inds 5 (-3) = inl ValueError.
Proof. apply (partition_inds_no_parts 5); lia. Defined.

(** ** What a call prints *)

Lemma silent_ret {A} (a : A) : silent (ret a).
Proof. by intros σ. Qed.

Lemma silent_raise {A} e : silent (@raise A e).
Proof. by intros σ. Qed.

Lemma silent_lift {A} (r : exn + A) : silent (lift r).
Proof. destruct r; [apply silent_raise | apply silent_ret]. Qed.

Lemma silent_bind {A B} (m : M A) (f : A → M B) :
  silent m → (∀ a, silent (f a)) → silent (bind m f).
Proof.
  intros Hm Hf σ. unfold bind. specialize (Hm σ).
  destruct (m σ) as [σ' [e|a]]; [done|]. by rewrite Hf.
Qed.

Lemma silent_if {A} (b : bool) (m1 m2 : M A) :
  silent m1 → silent m2 → silent (if b then m1 else m2).
Proof. by destruct b. Qed.

Lemma silent_alloc o : silent (alloc o).
Proof. by intros σ. Qed.

Lemma silent_load_list l : silent (load_list l).
Proof. intros σ. unfold load_list. by destruct (heap σ !! l) as [[?|?]|]. Qed.

Lemma silent_load_dict l : silent (load_dict l).
Proof. intros σ. unfold load_dict. by destruct (heap σ !! l) as [[?|?]|]. Qed.

Lemma silent_store l o : silent (store l o).
Proof. by intros σ. Qed.

Lemma silent_len l : silent (len l).
Proof. apply silent_bind; [apply silent_load_list | intros; apply silent_ret]. Qed.

Create HintDb silent.

#[local] Hint Resolve silent_ret silent_raise silent_lift silent_alloc
  silent_load_list silent_load_dict silent_store silent_len : silent.
#[local] Hint Extern 2 (silent (bind _ _)) =>
  apply silent_bind; [| intros ?] : silent.
#[local] Hint Extern 2 (silent (if _ then _ else _)) =>
  apply silent_if : silent.
#[local] Hint Extern 2 (silent (match ?x with _ => _ end)) =>
  destruct x : silent.

Lemma silent_dict_setitem l key v : silent (dict_setitem l key v).
Proof. unfold dict_setitem. auto 10 with silent. Qed.

Lemma silent_dict_update l other : silent (dict_update l other).
Proof. unfold dict_update. auto 10 with silent. Qed.

#[local] Hint Resolve silent_dict_setitem silent_dict_update : silent.

Lemma silent_attach_env_args self pi devices res :
  silent (ObjectManipThorPPO.attach_env_args self pi devices res).
Proof. unfold ObjectManipThorPPO.attach_env_args. auto 30 with silent. Qed.

Lemma silent_attach_x_display devices res :
  silent (ObjectNavThorA2C.attach_x_display devices res).
Proof. unfold ObjectNavThorA2C.attach_x_display. auto 30 with silent. Qed.

#[local] Hint Resolve silent_attach_env_args silent_attach_x_display : silent.

(** What follows a first part that prints is silent: the lines are those of
    the first part. *)
Lemma stdout_bind_silent {A B} (m : M A) (f : A → M B) σ :
  (∀ a, silent (f a)) → stdout (bind m f σ).1 = stdout (m σ).1.
Proof.
  intros Hf. unfold bind. destruct (m σ) as [σ' [e|a]]; [done|]. apply Hf.
Qed.

Lemma stdout_emit b w σ : stdout (emit b w σ) = stdout σ ++ (if b then [w] else []).
Proof. destruct b; simpl; [done|]. by rewrite app_nil_r. Qed.

(** Normalization of a non-empty list for a process count other than 0
    prints the expected warning, or nothing. *)
Lemma normalize_scenes_stdout σ scenes xs P :
  heap σ !! scenes = Some (OList xs) → xs ≠ [] → P ≠ 0 →
  stdout (normalize_scenes scenes P σ).1
    = stdout σ ++ expected_warning (Z.of_nat (length xs)) P.
Proof.
  intros Hl Hne HP. unfold expected_warning.
  assert (0 < Z.of_nat (length xs)) by (destruct xs; simpl; [done|lia]).
  destruct (Z.ltb_spec (Z.of_nat (length xs)) P) as [Hover|Hfit].
  - rewrite (normalize_scenes_oversample σ scenes xs P Hl) by lia.
    simpl. rewrite stdout_emit. by destruct (_ =? 0).
  - rewrite (normalize_scenes_fits σ scenes xs P Hl) by lia.
    simpl. rewrite stdout_emit. by destruct (_ =? 0).
Qed.

(** For any arguments and any state, normalization prints at most one
    line, one of the two warnings. *)
Lemma normalize_scenes_prints σ scenes P :
  ∃ w, stdout (normalize_scenes scenes P σ).1 = stdout σ ++ w ∧
       (w = [] ∨ w = [warning_divisible] ∨ w = [warning_divisor]).
Proof.
  destruct (heap σ !! scenes) as [[xs|d]|] eqn:Hl.
  - destruct (decide (P = 0)) as [->|HP].
    { rewrite (normalize_scenes_zero_division σ scenes xs 0 Hl) by (by left).
      exists []. rewrite app_nil_r. auto. }
    destruct (decide (xs = [])) as [->|Hne].
    + destruct (decide (0 < P)) as [Hpos|Hneg].
      * rewrite (normalize_scenes_zero_division σ scenes [] P Hl) by (by right).
        exists []. rewrite app_nil_r. auto.
      * rewrite (normalize_scenes_fits σ scenes [] P Hl) by (simpl; lia).
        cbn [fst]. rewrite stdout_emit. change (Z.of_nat (length [])) with 0.
        rewrite Z.mod_0_l by lia. simpl.
        exists []. auto.
    + rewrite (normalize_scenes_stdout σ scenes xs P Hl Hne) by lia.
      eexists. split; [done|]. unfold expected_warning.
      destruct (_ <? _); destruct (_ =? 0); auto.
  - exists []. rewrite app_nil_r. split; [|auto].
    unfold normalize_scenes, bind, len, bind, load_list. by rewrite Hl.
  - exists []. rewrite app_nil_r. split; [|auto].
    unfold normalize_scenes, bind, len, bind, load_list. by rewrite Hl.
Qed.

Lemma silent_after_normalize self process_ind total_processes seeds det scenes :
  silent (n <- len scenes ;;
          inds <- lift (_partition_inds n total_processes) ;;
          xs <- load_list scenes ;;
          a <- lift (py_getitem inds process_ind) ;;
          b <- lift (py_getitem inds (process_ind + 1)) ;;
          assigned <- alloc (OList (py_slice xs (Some a) (Some b))) ;;
          seed <- match seeds with
                  | Some s => v <- lift (py_getitem s process_ind) ;; ret (Some v)
                  | None => ret None
                  end ;;
          ret {| scenes := assigned;
                 object_types := OBJECT_TYPES self;
                 env_args := ENV_ARGS self;
                 max_steps := MAX_STEPS self;
                 sensors := SENSORS self;
                 action_space := Z.of_nat (length (action_names self));
                 seed := seed;
                 deterministic_cudnn := det;
                 scene_period := None;
                 max_tasks := None |})%py.
Proof. auto 30 with silent. Qed.

(** The lines of a scene split are those of its normalization. *)
Lemma split_stdout self scenes pi P seeds det σ :
  stdout (_get_sampler_args_for_scene_split self scenes pi P seeds det σ).1
    = stdout (normalize_scenes scenes P σ).1.
Proof.
  unfold _get_sampler_args_for_scene_split.
  apply stdout_bind_silent. intros l. apply silent_after_normalize.
Qed.

(** The lines of a public method are those of its scene split. *)
Lemma methods_stdout self pi P devices seeds det σ :
  let split sc := stdout (_get_sampler_args_for_scene_split self sc pi P seeds det σ).1 in
  stdout (ObjectManipThorPPO.train_task_sampler_args self pi P devices seeds det σ).1
    = split (TRAIN_SCENES self) ∧
  stdout (ObjectManipThorPPO.valid_task_sampler_args self pi P devices seeds det σ).1
    = split (VALID_SCENES self) ∧
  stdout (ObjectManipThorPPO.test_task_sampler_args self pi P devices seeds det σ).1
    = split (TEST_SCENES self) ∧
  stdout (ObjectNavThorA2C.train_task_sampler_args self pi P devices seeds det σ).1
    = split (TRAIN_SCENES self) ∧
  stdout (ObjectNavThorA2C.valid_task_sampler_args self pi P devices seeds det σ).1
    = split (VALID_SCENES self) ∧
  stdout (ObjectNavThorA2C.test_task_sampler_args self pi P devices seeds det σ).1
    = split (TEST_SCENES self).
Proof.
  repeat split.
  all: unfold ObjectManipThorPPO.train_task_sampler_args,
         ObjectManipThorPPO.valid_task_sampler_args,
         ObjectManipThorPPO.test_task_sampler_args,
         ObjectNavThorA2C.train_task_sampler_args,
         ObjectNavThorA2C.valid_task_sampler_args,
         ObjectNavThorA2C.test_task_sampler_args.
  all: apply stdout_bind_silent; intros res; auto 30 with silent.
Qed.

(** X4.  For a non-empty scene list and a process count other than 0, a call of
    the scene split prints exactly the expected warning: with more
    processes than scenes, the first warning unless the process count is a
    multiple of the number of scenes; otherwise the second warning unless
    the number of scenes is a multiple of the process count.  This holds
    for every process index and seeds list, also when the call goes on to
    raise. *)
Theorem split_prints_expected_warning (self : experiment_config) (σ : state)
    (scenes : loc) (xs : list string) (pi P : Z) (seeds : option (list Z))
    (det : bool) :
  heap σ !! scenes = Some (OList xs) → xs ≠ [] → P ≠ 0 →
  stdout (_get_sampler_args_for_scene_split self scenes pi P seeds det σ).1
    = stdout σ ++ expected_warning (Z.of_nat (length xs)) P.
Proof.
  intros Hl Hne HP. rewrite split_stdout. by apply normalize_scenes_stdout.
Qed.

Lemma split_prints_expected_warning_witness :
  heap five_scenes !! 4%nat = Some (OList ["s0"; "s1"; "s2"; "s3"; "s4"]) ∧
  stdout (_get_sampler_args_for_scene_split (ObjectManipThorPPO.cls []) 4%nat
            7 2 (Some []) false five_scenes).1
    = stdout five_scenes ++ [warning_divisor].
Proof.
  split; [reflexivity|].
  apply (split_prints_expected_warning (ObjectManipThorPPO.cls []) five_scenes
           4%nat ["s0"; "s1"; "s2"; "s3"; "s4"] 7 2 (Some []) false).
  - reflexivity.
  - discriminate.
  - lia.
Defined.

(** X5.  Whatever the arguments and the state, and whether the call returns or
    raises, the scene split and the three public methods of both classes
    print nothing but at most one line, one of the two warnings. *)
Theorem at_most_one_warning (self : experiment_config) (pi P : Z)
    (devices seeds : option (list Z)) (det : bool) (σ : state) :
  let one_line (σ' : state) :=
    ∃ w, stdout σ' = stdout σ ++ w ∧
         (w = [] ∨ w = [warning_divisible] ∨ w = [warning_divisor]) in
  (∀ scenes,
     one_line (_get_sampler_args_for_scene_split self scenes pi P seeds det σ).1) ∧
  one_line (ObjectManipThorPPO.train_task_sampler_args self pi P devices seeds det σ).1 ∧
  one_line (ObjectManipThorPPO.valid_task_sampler_args self pi P devices seeds det σ).1 ∧
  one_line (ObjectManipThorPPO.test_task_sampler_args self pi P devices seeds det σ).1 ∧
  one_line (ObjectNavThorA2C.train_task_sampler_args self pi P devices seeds det σ).1 ∧
  one_line (ObjectNavThorA2C.valid_task_sampler_args self pi P devices seeds det σ).1 ∧
  one_line (ObjectNavThorA2C.test_task_sampler_args self pi P devices seeds det σ).1.
Proof.
  intros one_line. unfold one_line.
  destruct (methods_stdout self pi P devices seeds det σ)
    as (H1 & H2 & H3 & H4 & H5 & H6).
  rewrite H1, H2, H3, H4, H5, H6. rewrite !split_stdout.
  split; [intros scenes; rewrite split_stdout|];
    repeat split; apply normalize_scenes_prints.
Qed.

(** ** Which scenes a worker is given *)

(** The [i]-th element of a list repeated [k] times is the element at
    [i % len] of the list. *)
Lemma lookup_py_list_mul {A} (xs : list A) (k : Z) (i : nat) :
  (i < Z.to_nat k * length xs)%nat →
  py_list_mul xs k !! i = xs !! (i `mod` length xs)%nat.
Proof.
  unfold py_list_mul. revert i.
  induction (Z.to_nat k) as [|m IH]; intros i Hi; [lia|].
  assert (length xs ≠ 0)%nat by (destruct xs; simpl in *; lia).
  simpl. destruct (decide (i < length xs)%nat) as [Hlt|Hge].
  - rewrite lookup_app_l by done. by rewrite Nat.mod_small.
  - rewrite lookup_app_r by lia. rewrite IH by lia. f_equal.
    rewrite <- (Nat.Div0.mod_add (i - length xs) 1 (length xs)).
    f_equal. lia.
Qed.

Lemma take_one_drop {A} (l : list A) (i : nat) x :
  l !! i = Some x → take 1 (drop i l) = [x].
Proof.
  intros H. rewrite <- (take_drop_middle l i x H).
  rewrite drop_app_length'; [done|].
  rewrite length_take. apply lookup_lt_Some in H. lia.
Qed.

(** With more processes than scenes, the normalized list has exactly one
    entry per process, and entry [i] is scene [i % L]. *)
Lemma normalize_oversample_entries σ scenes xs (P : nat) :
  heap σ !! scenes = Some (OList xs) →
  (0 < length xs < P)%nat →
  Z.of_nat P < 2 ^ 53 →
  ∃ σ1 l1 ys,
    normalize_scenes scenes (Z.of_nat P) σ = (σ1, inr l1) ∧
    heap σ1 !! l1 = Some (OList ys) ∧
    length ys = P ∧
    ∀ i, (i < P)%nat → ys !! i = xs !! (i `mod` length xs)%nat.
Proof.
  intros Hl HP H53.
  set (n := Z.of_nat (length xs)). set (p := Z.of_nat P).
  destruct (normalize_oversample_length σ scenes xs p Hl ltac:(lia) H53)
    as (Hk & Hdiv & Hlen & Hnorm).
  fold n in Hk, Hdiv, Hlen, Hnorm.
  set (kz := ceil (float64 (inject_Z p / inject_Z n))) in *.
  set (rep := py_list_mul xs kz) in *.
  set (ys := take (Z.to_nat p) rep) in *.
  assert (Hkpos : 0 < kz) by nia.
  eexists _, _, ys. split; [exact Hnorm|]. split; [|split].
  - simpl. rewrite lookup_app_r by lia.
    by replace (S _ - _)%nat with 1%nat by lia.
  - lia.
  - intros i Hi. unfold ys. rewrite lookup_take_lt by lia.
    unfold rep. apply lookup_py_list_mul. nia.
Qed.

(** X6.  With more processes than scenes ([2^31 > P > L > 0]), process [i]
    is given exactly one scene, the one at index [i % L] of the list. *)
Theorem oversampled_worker_scene (self : experiment_config) (σ : state)
    (scenes : loc) (xs : list string) (P i : nat) (seeds : option (list Z))
    (det : bool) :
  heap σ !! scenes = Some (OList xs) →
  (0 < length xs < P)%nat →
  Z.of_nat P < 2 ^ 31 →
  (i < P)%nat →
  (∀ s, seeds = Some s → (P ≤ length s)%nat) →
  ∃ x, xs !! (i `mod` length xs)%nat = Some x ∧
       assigned_scenes
         (_get_sampler_args_for_scene_split self scenes (Z.of_nat i)
            (Z.of_nat P) seeds det σ) = Some [x].
Proof.
  intros Hl HP H31 Hi Hs.
  destruct (normalize_oversample_entries σ scenes xs P Hl HP ltac:(lia))
    as (σ1 & l1 & ys & Hnorm & Hl1 & Hlen & Hys).
  destruct (lookup_lt_is_Some_2 ys i) as [x Hx]; [lia|].
  exists x. split; [by rewrite <- Hys|].
  erewrite split_after_normalize; [| exact Hnorm | exact Hl1 | lia ].
  simpl. destruct (seeded_ok seeds P (Z.of_nat i) Hs ltac:(lia)) as [sd ->].
  simpl. rewrite lookup_app_r, Nat.sub_diag by lia. simpl.
  rewrite Hlen.
  assert (Hpp : (Z.of_nat P | Z.of_nat P)) by (exists 1; lia).
  rewrite !boundary_exact by (done || lia).
  rewrite Z.div_same by lia.
  rewrite py_slice_segment by lia.
  replace (Z.to_nat ((Z.of_nat i + 1) * 1) - Z.to_nat (Z.of_nat i * 1))%nat
    with 1%nat by lia.
  rewrite Z.mul_1_r, Nat2Z.id. by rewrite (take_one_drop _ _ _ Hx).
Qed.

Lemma oversampled_worker_scene_witness :
  heap five_scenes !! 4%nat = Some (OList ["s0"; "s1"; "s2"; "s3"; "s4"]) ∧
  ∃ x, ["s0"; "s1"; "s2"; "s3"; "s4"] !! (6 `mod` 5)%nat = Some x ∧
       assigned_scenes
         (_get_sampler_args_for_scene_split (ObjectManipThorPPO.cls []) 4%nat
            (Z.of_nat 6) (Z.of_nat 8) None false five_scenes) = Some [x].
Proof.
  split; [reflexivity|].
  apply (oversampled_worker_scene (ObjectManipThorPPO.cls []) five_scenes
           4%nat ["s0"; "s1"; "s2"; "s3"; "s4"] 8 6 None false).
  - reflexivity.
  - simpl; lia.
  - simpl; lia.
  - lia.
  - intros s Hs. discriminate Hs.
Defined.

(** X7.  When the process count divides the number of scenes ([0 < P <= L],
    [L % P == 0]) and [L < 2^31], process [i] is given the [L // P] scenes
    from index [i * (L // P)] on, and nothing is printed. *)
Theorem even_split_equal_shares (self : experiment_config) (σ : state)
    (scenes : loc) (xs : list string) (P i : nat) (seeds : option (list Z))
    (det : bool) :
  heap σ !! scenes = Some (OList xs) →
  (0 < P)%nat →
  (length xs `mod` P = 0)%nat →
  xs ≠ [] →
  Z.of_nat (length xs) < 2 ^ 31 →
  (i < P)%nat →
  (∀ s, seeds = Some s → (P ≤ length s)%nat) →
  let q := (length xs / P)%nat in
  let r := _get_sampler_args_for_scene_split self scenes (Z.of_nat i)
             (Z.of_nat P) seeds det σ in
  assigned_scenes r = Some (take q (drop (i * q) xs)) ∧
  length (take q (drop (i * q) xs)) = q ∧
  stdout r.1 = stdout σ.
Proof.
  intros Hl HP Hmod Hne H31 Hi Hs q r.
  assert (HL : length xs = (q * P)%nat).
  { unfold q. pose proof (Nat.div_mod_eq (length xs) P). lia. }
  assert (0 < length xs)%nat by (destruct xs; simpl; [done|lia]).
  assert (Hq : (0 < q)%nat) by nia.
  assert (HPL : (P ≤ length xs)%nat) by nia.
  assert (HmodZ : Z.of_nat (length xs) `mod` Z.of_nat P = 0).
  { rewrite HL, Nat2Z.inj_mul. apply Z.mod_mul. lia. }
  split; [|split].
  - unfold r.
    erewrite split_after_normalize;
      [| by apply normalize_scenes_fits; [done|lia|lia]
       | by rewrite heap_emit | lia ].
    simpl. destruct (seeded_ok seeds P (Z.of_nat i) Hs ltac:(lia)) as [sd ->].
    simpl. rewrite heap_emit, lookup_app_r, Nat.sub_diag by lia. simpl.
    f_equal.
    assert (Hd : (Z.of_nat P | Z.of_nat (length xs))).
    { exists (Z.of_nat q). lia. }
    assert (Hq' : Z.of_nat (length xs) `div` Z.of_nat P = Z.of_nat q).
    { rewrite HL, Nat2Z.inj_mul, Z.div_mul; lia. }
    rewrite !boundary_exact by (done || lia). rewrite Hq'.
    rewrite py_slice_segment by nia.
    f_equal; [|f_equal]; nia.
  - rewrite length_take, length_drop. nia.
  - unfold r. rewrite split_stdout.
    rewrite (normalize_scenes_stdout σ scenes xs) by (done || lia).
    unfold expected_warning.
    destruct (Z.ltb_spec (Z.of_nat (length xs)) (Z.of_nat P)); [lia|].
    rewrite HmodZ. simpl. by rewrite app_nil_r.
Qed.

Lemma even_split_equal_shares_witness :
  heap five_scenes !! 4%nat = Some (OList ["s0"; "s1"; "s2"; "s3"; "s4"]) ∧
  let xs := ["s0"; "s1"; "s2"; "s3"; "s4"] in
  let q := (length xs / 5)%nat in
  let r := _get_sampler_args_for_scene_split (ObjectManipThorPPO.cls []) 4%nat
             (Z.of_nat 2) (Z.of_nat 5) None false five_scenes in
  assigned_scenes r = Some (take q (drop (2 * q) xs)) ∧
  length (take q (drop (2 * q) xs)) = q ∧
  stdout r.1 = stdout five_scenes.
Proof.
  split; [reflexivity|].
  apply (even_split_equal_shares (ObjectManipThorPPO.cls []) five_scenes
           4%nat ["s0"; "s1"; "s2"; "s3"; "s4"] 5 2 None false).
  - reflexivity.
  - lia.
  - reflexivity.
  - discriminate.
  - simpl; lia.
  - lia.
  - intros s Hs. discriminate Hs.
Defined.

(** ** Process indices outside [0 .. total_processes - 1] *)

Lemma py_getitem_negative {A} (xs : list A) (i : Z) :
  - Z.of_nat (length xs) ≤ i < 0 →
  py_getitem xs i = py_getitem xs (i + Z.of_nat (length xs)).
Proof.
  intros Hi. unfold py_getitem.
  destruct (Z.ltb_spec i 0); [|lia].
  destruct (Z.ltb_spec (i + Z.of_nat (length xs)) 0); [lia|]. done.
Qed.

Lemma py_getitem_below {A} (xs : list A) (i : Z) :
  i < - Z.of_nat (length xs) → py_getitem xs i = inl IndexError.
Proof.
  intros Hi. unfold py_getitem.
  destruct (Z.ltb_spec i 0); [|lia].
  destruct (Z.leb_spec 0 (i + Z.of_nat (length xs))); [lia|]. done.
Qed.

(** The scene split after normalization, for any process index: the two
    boundary lookups decide between [IndexError] and a slice. *)
Lemma split_after_normalize_any self σ scenes P i seeds det σ1 l1 ys :
  normalize_scenes scenes P σ = (σ1, inr l1) →
  heap σ1 !! l1 = Some (OList ys) →
  0 < P →
  let n := Z.of_nat (length ys) in
  let inds := boundary n P <$> seqZ 0 (P + 1) in
  _get_sampler_args_for_scene_split self scenes i P seeds det σ =
    match py_getitem inds i with
    | inl e => (σ1, inl e)
    | inr a =>
        match py_getitem inds (i + 1) with
        | inl e => (σ1, inl e)
        | inr b =>
            (mkState (heap σ1 ++ [OList (py_slice ys (Some a) (Some b))])
               (stdout σ1),
             match seeded seeds i with
             | inl e => inl e
             | inr sd =>
                 inr (mkArgs (length (heap σ1)) (OBJECT_TYPES self)
                        (ENV_ARGS self) (MAX_STEPS self) (SENSORS self)
                        (Z.of_nat (length (action_names self))) sd det None None)
             end)
        end
    end.
Proof.
  intros Hn Hl HP n inds. unfold _get_sampler_args_for_scene_split.
  rewrite (bind_run _ _ _ _ _ Hn).
  rewrite (bind_run _ _ _ _ _ (len_run _ _ _ Hl)).
  rewrite partition_inds_eq by lia. fold n inds.
  rewrite (bind_run _ _ _ _ _ (lift_run _ _)).
  rewrite (bind_run _ _ _ _ _ (load_list_run _ _ _ Hl)).
  destruct (py_getitem inds i) as [e|a]; [done|].
  rewrite (bind_run _ _ _ _ _ (lift_run _ _)).
  destruct (py_getitem inds (i + 1)) as [e|b]; [done|].
  rewrite (bind_run _ _ _ _ _ (lift_run _ _)).
  rewrite (bind_run _ _ _ _ _ (alloc_run _ _)).
  unfold seeded. destruct seeds as [s|]; [|done].
  destruct (py_getitem s i) as [e|v]; [done|].
  by rewrite (bind_run _ _ _ _ _ (bind_run _ _ _ _ _ (lift_run _ _))).
Qed.

(** X8.  For a non-empty scene list and [total_processes > 0]: a process index
    at or above [total_processes], or below [-(total_processes + 1)], makes
    the call raise [IndexError], whatever the seeds. *)
Theorem process_index_out_of_range (self : experiment_config) (σ : state)
    (scenes : loc) (xs : list string) (pi P : Z) (seeds : option (list Z))
    (det : bool) :
  heap σ !! scenes = Some (OList xs) → xs ≠ [] → 0 < P →
  P ≤ pi ∨ pi < - (P + 1) →
  (_get_sampler_args_for_scene_split self scenes pi P seeds det σ).2
    = inl IndexError.
Proof.
  intros Hl Hne HP Hout.
  destruct (normalize_scenes_returns σ scenes xs P Hl Hne HP)
    as (σ1 & l1 & ys & Hn & Hl1).
  destruct Hout as [Hhigh|Hlow].
  - eapply split_process_out_of_range; [exact Hn | exact Hl1 | lia].
  - rewrite (split_after_normalize_any _ _ _ _ _ _ _ _ _ _ Hn Hl1 HP).
    pose proof (length_boundaries (Z.of_nat (length ys)) P HP) as Hlen.
    by rewrite py_getitem_below by lia.
Qed.

Lemma process_index_out_of_range_witness :
  heap five_scenes !! 4%nat = Some (OList ["s0"; "s1"; "s2"; "s3"; "s4"]) ∧
  (_get_sampler_args_for_scene_split (ObjectManipThorPPO.cls []) 4%nat 3 3
     None false five_scenes).2 = inl IndexError.
Proof.
  split; [reflexivity|].
  apply (process_index_out_of_range (ObjectManipThorPPO.cls []) five_scenes
           4%nat ["s0"; "s1"; "s2"; "s3"; "s4"] 3 3 None false).
  - reflexivity.
  - discriminate.
  - lia.
  - left. lia.
Defined.

(** X9.  For a non-empty scene list and [total_processes > 0] the negative
    process indices [-(total_processes + 1) .. -1] do not raise: the index
    wraps around the boundary array.  Index [-1] is given no scene at all,
    and an index [pi <= -2] is given the scenes of process
    [pi + total_processes + 1]. *)
Theorem negative_process_index_wraps (self : experiment_config) (σ : state)
    (scenes : loc) (xs : list string) (pi P : Z) (det : bool) :
  heap σ !! scenes = Some (OList xs) → xs ≠ [] → 0 < P →
  - (P + 1) ≤ pi < 0 →
  let run i := _get_sampler_args_for_scene_split self scenes i P None det σ in
  (pi = -1 → assigned_scenes (run pi) = Some []) ∧
  (pi ≤ -2 →
     ∃ l, assigned_scenes (run pi) = Some l ∧
          assigned_scenes (run (pi + P + 1)) = Some l).
Proof.
  intros Hl Hne HP Hpi run.
  destruct (normalize_scenes_returns σ scenes xs P Hl Hne HP)
    as (σ1 & l1 & ys & Hn & Hl1).
  pose proof (length_boundaries (Z.of_nat (length ys)) P HP) as Hlen.
  split.
  - intros ->. unfold run.
    rewrite (split_after_normalize_any _ _ _ _ _ _ _ _ _ _ Hn Hl1 HP).
    rewrite py_getitem_negative by lia. rewrite Hlen.
    replace (-1 + (P + 1)) with P by lia. replace (-1 + 1) with 0 by lia.
    rewrite !py_getitem_boundary by lia.
    rewrite boundary_0 by done.
    simpl. rewrite lookup_app_r, Nat.sub_diag by lia. simpl.
    f_equal. apply py_slice_empty. unfold slice_bound.
    destruct (Z.ltb_spec 0 0); [lia|].
    destruct (Z.ltb_spec (boundary (Z.of_nat (length ys)) P P) 0); lia.
  - intros Hle. unfold run.
    rewrite !(split_after_normalize_any _ _ _ _ _ _ _ _ _ _ Hn Hl1 HP).
    rewrite (py_getitem_negative _ pi) by lia.
    rewrite (py_getitem_negative _ (pi + 1)) by lia.
    rewrite Hlen.
    replace (pi + 1 + (P + 1)) with (pi + P + 1 + 1) by lia.
    replace (pi + (P + 1)) with (pi + P + 1) by lia.
    rewrite !py_getitem_boundary by lia.
    simpl. rewrite lookup_app_r, Nat.sub_diag by lia. simpl. by eexists.
Qed.

Lemma negative_process_index_wraps_witness :
  heap five_scenes !! 4%nat = Some (OList ["s0"; "s1"; "s2"; "s3"; "s4"]) ∧
  assigned_scenes
    (_get_sampler_args_for_scene_split (ObjectManipThorPPO.cls []) 4%nat (-1) 3
       None false five_scenes) = Some [].
Proof.
  split; [reflexivity|].
  apply (negative_process_index_wraps (ObjectManipThorPPO.cls []) five_scenes
           4%nat ["s0"; "s1"; "s2"; "s3"; "s4"] (-1) 3 false).
  - reflexivity.
  - discriminate.
  - lia.
  - lia.
  - reflexivity.
Defined.

(** ** The returned dictionary *)

Lemma load_list_inr l σ σ' xs :
  load_list l σ = (σ', inr xs) → σ' = σ ∧ heap σ !! l = Some (OList xs).
Proof.
  unfold load_list. destruct (heap σ !! l) as [[xs'|?]|]; try discriminate.
  by intros [= <- <-].
Qed.

(** A scene split that returns has allocated its list of scenes last, and
    its dictionary is made of that list, the class attributes and the
    arguments. *)
Lemma split_inr self scenes pi P seeds det σ σ' res :
  _get_sampler_args_for_scene_split self scenes pi P seeds det σ = (σ', inr res) →
  ∃ σ1 l sd,
    heap_extends σ σ1 ∧
    heap σ' = heap σ1 ++ [OList l] ∧
    seeded seeds pi = inr sd ∧
    res = mkArgs (length (heap σ1)) (OBJECT_TYPES self) (ENV_ARGS self)
            (MAX_STEPS self) (SENSORS self)
            (Z.of_nat (length (action_names self))) sd det None None.
Proof.
  unfold _get_sampler_args_for_scene_split. intros H.
  apply bind_inr in H as (σ1 & l1 & Hn & H).
  pose proof (allocates_normalize_scenes scenes P σ) as Hext.
  rewrite Hn in Hext. simpl in Hext.
  apply bind_inr in H as (σ2 & n & Hlen & H). apply len_inr in Hlen as ->.
  apply bind_inr in H as (σ2 & inds & Hinds & H). apply lift_inr in Hinds as [_ ->].
  apply bind_inr in H as (σ2 & ys & Hys & H). apply load_list_inr in Hys as [-> _].
  apply bind_inr in H as (σ2 & a & Ha & H). apply lift_inr in Ha as [_ ->].
  apply bind_inr in H as (σ2 & b & Hb & H). apply lift_inr in Hb as [_ ->].
  rewrite (bind_run _ _ _ _ _ (alloc_run _ _)) in H.
  apply bind_inr in H as (σ3 & sd & Hsd & H).
  injection H as <- <-.
  exists σ1, (py_slice ys (Some a) (Some b)), sd.
  split; [done|].
  destruct seeds as [s|].
  - apply bind_inr in Hsd as (σ4 & v & Hv & Hsd).
    apply lift_inr in Hv as [Hv ->]. injection Hsd as <- <-.
    unfold seeded. by rewrite Hv.
  - by injection Hsd as <- <-.
Qed.

(** X10.  The list a returned dictionary holds under ["scenes"] is an object of
    its own, created by the call: its location was not in use before, so it
    is neither the list passed as [scenes] nor one of the class lists, even
    when one process is given all the scenes. *)
Theorem assigned_scenes_are_fresh (self : experiment_config) (sc : loc)
    (pi P : Z) (seeds : option (list Z)) (det : bool) (σ σ' : state)
    (res : sampler_args) :
  _get_sampler_args_for_scene_split self sc pi P seeds det σ = (σ', inr res) →
  (length (heap σ) ≤ scenes res)%nat ∧
  heap σ !! scenes res = None ∧
  ∃ l, heap σ' !! scenes res = Some (OList l).
Proof.
  intros H. apply split_inr in H as (σ1 & l & sd & [new Hext] & Hh & _ & ->).
  simpl. assert (length (heap σ) ≤ length (heap σ1))%nat.
  { rewrite Hext, length_app. lia. }
  split; [done|]. split; [by apply lookup_ge_None_2|].
  exists l. by rewrite Hh, lookup_app_r, Nat.sub_diag by lia.
Qed.

Lemma assigned_scenes_are_fresh_witness :
  ∃ σ' res,
    _get_sampler_args_for_scene_split (ObjectManipThorPPO.cls []) 4%nat 0 1
      None false five_scenes = (σ', inr res) ∧
    (length (heap five_scenes) ≤ scenes res)%nat ∧
    heap five_scenes !! scenes res = None ∧
    ∃ l, heap σ' !! scenes res = Some (OList l).
Proof.
  eexists _, _. split; [vm_compute; reflexivity|].
  eapply (assigned_scenes_are_fresh (ObjectManipThorPPO.cls []) 4%nat 0 1 None
            false five_scenes).
  vm_compute. reflexivity.
Defined.

(** X11.  The dictionary the scene split returns carries the class's object
    types, step limit and sensors, one action per action name, the
    [deterministic_cudnn] argument, a reference to the class's [ENV_ARGS],
    no ["scene_period"] and no ["max_tasks"]; its seed is [seeds[process_ind]],
    and is [None] when no seeds are given. *)
Theorem split_returns_fields (self : experiment_config) (scenes : loc)
    (pi P : Z) (seeds : option (list Z)) (det : bool) (σ σ' : state)
    (res : sampler_args) :
  _get_sampler_args_for_scene_split self scenes pi P seeds det σ = (σ', inr res) →
  object_types res = OBJECT_TYPES self ∧
  env_args res = ENV_ARGS self ∧
  max_steps res = MAX_STEPS self ∧
  sensors res = SENSORS self ∧
  action_space res = Z.of_nat (length (action_names self)) ∧
  deterministic_cudnn res = det ∧
  scene_period res = None ∧
  max_tasks res = None ∧
  seeded seeds pi = inr (seed res) ∧
  (seeds = None → seed res = None).
Proof.
  intros H. apply split_inr in H as (σ1 & l & sd & _ & _ & Hsd & ->).
  simpl. repeat split; try done.
  intros ->. simpl in Hsd. by injection Hsd as <-.
Qed.

Lemma split_returns_fields_witness :
  let self := ObjectManipThorPPO.cls ["a"; "b"] in
  ∃ σ' res,
    _get_sampler_args_for_scene_split self 4%nat 1 3 (Some [7; 8; 9]) true
      five_scenes = (σ', inr res) ∧
    (object_types res = OBJECT_TYPES self ∧
     env_args res = ENV_ARGS self ∧
     max_steps res = MAX_STEPS self ∧
     sensors res = SENSORS self ∧
     action_space res = Z.of_nat (length (action_names self)) ∧
     deterministic_cudnn res = true ∧
     scene_period res = None ∧
     max_tasks res = None ∧
     seeded (Some [7; 8; 9]) 1 = inr (seed res) ∧
     (Some [7; 8; 9] = None → seed res = None)).
Proof.
  intros self. eexists _, _. split; [vm_compute; reflexivity|].
  eapply (split_returns_fields self 4%nat 1 3 (Some [7; 8; 9]) true five_scenes).
  vm_compute. reflexivity.
Defined.

(** ** [ObjectManipThorPPO] writes no object it did not create *)

Lemma dict_update_other_missing l other σ d :
  heap σ !! l = Some (ODict d) →
  (∀ o, heap σ !! other ≠ Some (ODict o)) →
  dict_update l other σ = (σ, inl TypeError).
Proof.
  intros Hl Ho. unfold dict_update, bind, load_dict. rewrite Hl.
  destruct (heap σ !! other) as [[?|o]|]; try done. by destruct (Ho o).
Qed.

(** Whatever [devices] is and whether they return or raise, the closing
    statements of a method of [ObjectManipThorPPO] add one dictionary to the
    heap and write nothing else. *)
Lemma attach_env_args_heap self pi devices res σ :
  ∃ d, heap (ObjectManipThorPPO.attach_env_args self pi devices res σ).1
         = heap σ ++ [ODict d].
Proof.
  unfold ObjectManipThorPPO.attach_env_args.
  rewrite (bind_run _ _ _ _ _ (alloc_run _ _)).
  cbn [env_args set_env_args].
  set (σ1 := mkState (heap σ ++ [ODict ∅]) (stdout σ)).
  assert (Hd : heap σ1 !! length (heap σ) = Some (ODict ∅)).
  { simpl. by rewrite lookup_app_r, Nat.sub_diag by lia. }
  destruct (heap σ1 !! ENV_ARGS self) as [[xs|env]|] eqn:Henv.
  1,3: assert (Hf : dict_update (length (heap σ)) (ENV_ARGS self) σ1
                      = (σ1, inl TypeError))
         by (apply (dict_update_other_missing _ _ _ _ Hd); intros o;
             rewrite Henv; discriminate);
       rewrite (bind_fail _ _ _ _ _ Hf); by eexists.
  rewrite (bind_run _ _ _ _ _ (dict_update_run _ _ _ _ _ Hd Henv)).
  cbn [heap stdout σ1]. rewrite insert_last.
  destruct devices as [devs|]; [|by eexists].
  rewrite (bind_run (lift (py_len_opt (Some devs))) _ _ _
             (Z.of_nat (length devs)) eq_refl).
  rewrite (bind_run _ _ _ _ _ (display_by_process_run _ _ _)).
  erewrite bind_run.
  2:{ apply dict_setitem_run. simpl. by rewrite lookup_app_r, Nat.sub_diag by lia. }
  cbn [heap stdout]. rewrite insert_last. by eexists.
Qed.

Lemma allocates_attach_env_args self pi devices res :
  only_allocates (ObjectManipThorPPO.attach_env_args self pi devices res).
Proof.
  intros σ. destruct (attach_env_args_heap self pi devices res σ) as [d Hd].
  by eexists.
Qed.

(** X12.  In [ObjectManipThorPPO], for all arguments and states and whether the
    call returns or raises, each of the three public methods leaves every
    object that existed before the call as it was: the class's [ENV_ARGS]
    dictionary and the scene lists included, the heap only grows. *)
Theorem manip_methods_only_allocate (self : experiment_config) (pi P : Z)
    (devices seeds : option (list Z)) (det : bool) (σ : state) :
  heap_extends σ
    (ObjectManipThorPPO.train_task_sampler_args self pi P devices seeds det σ).1 ∧
  heap_extends σ
    (ObjectManipThorPPO.valid_task_sampler_args self pi P devices seeds det σ).1 ∧
  heap_extends σ
    (ObjectManipThorPPO.test_task_sampler_args self pi P devices seeds det σ).1.
Proof.
  pose proof allocates_attach_env_args. pose proof allocates_scene_split.
  repeat split.
  all: match goal with |- heap_extends _ (?m ?s).1 =>
         assert (Hk : only_allocates m); [| by apply Hk] end.
  all: unfold ObjectManipThorPPO.train_task_sampler_args,
         ObjectManipThorPPO.valid_task_sampler_args,
         ObjectManipThorPPO.test_task_sampler_args.
  all: auto 30 with allocates.
Qed.

(** X13.  In [ObjectManipThorPPO], when the class's [ENV_ARGS] is a dictionary
    [env] and a method returns: the environment arguments of the result are
    a dictionary that did not exist before the call; it has every entry of
    [env] under a key other than ["x_display"], and under ["x_display"] the
    string for [devices[process_ind % len(devices)]], or [None] for an empty
    list; and [ENV_ARGS] still holds [env]. *)
Theorem manip_env_args_copy (self : experiment_config) (σ : state)
    (env : gmap string val) (pi P : Z) (devices : list Z)
    (seeds : option (list Z)) (det : bool) (σ' : state) (res : sampler_args) :
  heap σ !! ENV_ARGS self = Some (ODict env) →
  ObjectManipThorPPO.train_task_sampler_args self pi P (Some devices) seeds det σ
    = (σ', inr res) ∨
  ObjectManipThorPPO.valid_task_sampler_args self pi P (Some devices) seeds det σ
    = (σ', inr res) ∨
  ObjectManipThorPPO.test_task_sampler_args self pi P (Some devices) seeds det σ
    = (σ', inr res) →
  heap σ !! env_args res = None ∧
  dict_at σ' (ENV_ARGS self) = Some env ∧
  ∃ d, dict_at σ' (env_args res) = Some d ∧
       d !! "x_display" = Some (display_by_process devices pi) ∧
       ∀ k, k ≠ "x_display" → d !! k = env !! k.
Proof.
  intros Henv H.
  assert (∃ σ1 r, heap_extends σ σ1 ∧
            ObjectManipThorPPO.attach_env_args self pi (Some devices) r σ1
              = (σ', inr res)) as (σ1 & r & Hext & Ha).
  { destruct H as [H|[H|H]].
    - unfold ObjectManipThorPPO.train_task_sampler_args in H.
      apply bind_inr in H as (σ1 & r1 & Hs & H).
      pose proof (allocates_scene_split self (TRAIN_SCENES self) pi P seeds det σ) as Hext.
      rewrite Hs in Hext. by eexists _, _.
    - unfold ObjectManipThorPPO.valid_task_sampler_args in H.
      apply bind_inr in H as (σ1 & r1 & Hs & H).
      apply bind_inr in H as (σ2 & n & Hn & H). apply len_inr in Hn as ->.
      pose proof (allocates_scene_split self (VALID_SCENES self) pi P seeds det σ) as Hext.
      rewrite Hs in Hext. by eexists _, _.
    - unfold ObjectManipThorPPO.test_task_sampler_args in H.
      apply bind_inr in H as (σ1 & r1 & Hs & H).
      apply bind_inr in H as (σ2 & n & Hn & H). apply len_inr in Hn as ->.
      pose proof (allocates_scene_split self (TEST_SCENES self) pi P seeds det σ) as Hext.
      rewrite Hs in Hext. by eexists _, _. }
  pose proof (heap_extends_lookup _ _ _ _ Hext Henv) as Henv1.
  rewrite (attach_env_args_run _ _ _ _ _ _ Henv1) in Ha.
  injection Ha as <- <-. destruct Hext as [new Hext].
  split; [|split].
  - simpl. apply lookup_ge_None_2. rewrite Hext, length_app. lia.
  - unfold dict_at. simpl.
    rewrite lookup_app_l by (by eapply lookup_lt_Some). by rewrite Henv1.
  - eexists. split; [|split].
    + unfold dict_at. simpl. by rewrite lookup_app_r, Nat.sub_diag by lia.
    + by rewrite lookup_insert_eq.
    + intros k Hk. rewrite lookup_insert_ne by done.
      by rewrite (right_id_L ∅ (∪)).
Qed.

Lemma manip_env_args_copy_witness :
  let self := ObjectManipThorPPO.cls [] in
  let σ := ObjectManipThorPPO.initial in
  ∃ env σ' res,
    heap σ !! ENV_ARGS self = Some (ODict env) ∧
    ObjectManipThorPPO.valid_task_sampler_args self 1 2 (Some [3; 7]) None false σ
      = (σ', inr res) ∧
    heap σ !! env_args res = None ∧
    dict_at σ' (ENV_ARGS self) = Some env ∧
    ∃ d, dict_at σ' (env_args res) = Some d ∧
         d !! "x_display" = Some (display_by_process [3; 7] 1) ∧
         ∀ k, k ≠ "x_display" → d !! k = env !! k.
Proof.
  intros self σ. eexists _, _, _.
  split; [reflexivity|]. split; [vm_compute; reflexivity|].
  eapply (manip_env_args_copy self σ _ 1 2 [3; 7] None false).
  - reflexivity.
  - right. left. vm_compute. reflexivity.
Defined.

Lemma nav_display_offset_witness :
  let self := ObjectNavThorA2C.cls [] in
  let σ := ObjectNavThorA2C.initial in
  ∃ env σ' res,
    heap σ !! ENV_ARGS self = Some (ODict env) ∧
    ObjectNavThorA2C.test_task_sampler_args self 1 2 (Some [3; 7]) None false σ
      = (σ', inr res) ∧
    env_args res = ENV_ARGS self ∧
    x_display (σ', inr res) = Some (display_first [3; 7]) ∧
    dict_at σ' (ENV_ARGS self)
      = Some (<["x_display" := display_first [3; 7]]> env).
Proof.
  intros self σ. eexists _, _, _.
  split; [reflexivity|]. split; [vm_compute; reflexivity|].
  eapply (nav_display_offset self σ _ 1 2 [3; 7] None false).
  - reflexivity.
  - right. right. vm_compute. reflexivity.
Defined.

(** ** Sampling cadence *)

(** The closing statements of a method return the dictionary they were
    given, with only ["env_args"] rebound in [ObjectManipThorPPO]. *)
Lemma attach_env_args_inr self pi devices r σ σ' res :
  ObjectManipThorPPO.attach_env_args self pi devices r σ = (σ', inr res) →
  res = set_env_args (length (heap σ)) r.
Proof.
  unfold ObjectManipThorPPO.attach_env_args. intros H.
  rewrite (bind_run _ _ _ _ _ (alloc_run _ _)) in H.
  do 4 (apply bind_inr in H as (? & ? & _ & H)).
  by injection H as _ <-.
Qed.

Lemma attach_x_display_inr devices r σ σ' res :
  ObjectNavThorA2C.attach_x_display devices r σ = (σ', inr res) → res = r.
Proof.
  unfold ObjectNavThorA2C.attach_x_display. intros H.
  do 3 (apply bind_inr in H as (? & ? & _ & H)).
  by injection H as _ <-.
Qed.

(** After a scene split that returned, [len(res["scenes"])] is the number
    of scenes assigned. *)
Lemma len_assigned self sc pi P seeds det σ σ1 r1 σ2 n :
  _get_sampler_args_for_scene_split self sc pi P seeds det σ = (σ1, inr r1) →
  len (scenes r1) σ1 = (σ2, inr n) →
  σ2 = σ1 ∧
  ∃ l, heap σ1 !! scenes r1 = Some (OList l) ∧ n = Z.of_nat (length l).
Proof.
  intros Hs Hn. apply split_inr in Hs as (σ0 & l & sd & _ & Hh & _ & ->).
  simpl in *.
  assert (Hl : heap σ1 !! length (heap σ0) = Some (OList l)).
  { by rewrite Hh, lookup_app_r, Nat.sub_diag by lia. }
  rewrite (len_run _ _ _ Hl) in Hn. injection Hn as <- <-.
  split; [done|]. by exists l.
Qed.

(** A scene split that returns leaves ["scene_period"] and ["max_tasks"]
    unset. *)
Lemma split_returns_fields_aux self sc pi P seeds det σ σ' res :
  _get_sampler_args_for_scene_split self sc pi P seeds det σ = (σ', inr res) →
  scene_period res = None ∧ max_tasks res = None.
Proof.
  intros H. by apply split_inr in H as (σ1 & l & sd & _ & _ & _ & ->).
Qed.

(** X15.  Validation and test: a returned dictionary has the class's
    samples-per-scene constant as ["scene_period"], and ["max_tasks"] is
    that constant times the number of scenes the dictionary assigns.
    Training: ["scene_period"] is ["manual"] in [ObjectManipThorPPO] and
    [SCENE_PERIOD] in [ObjectNavThorA2C], and there is no ["max_tasks"]. *)
Theorem sampling_cadence (self : experiment_config) (pi P : Z)
    (devices seeds : option (list Z)) (det : bool) (σ σ' : state)
    (res : sampler_args) :
  let counted (k : Z) :=
    scene_period res = Some (PEvery k) ∧
    ∃ l, assigned_scenes (σ', inr res) = Some l ∧
         max_tasks res = Some (k * Z.of_nat (length l)) in
  (ObjectManipThorPPO.valid_task_sampler_args self pi P devices seeds det σ
     = (σ', inr res) ∨
   ObjectNavThorA2C.valid_task_sampler_args self pi P devices seeds det σ
     = (σ', inr res) → counted (VALID_SAMPLES_IN_SCENE self)) ∧
  (ObjectManipThorPPO.test_task_sampler_args self pi P devices seeds det σ
     = (σ', inr res) ∨
   ObjectNavThorA2C.test_task_sampler_args self pi P devices seeds det σ
     = (σ', inr res) → counted (TEST_SAMPLES_IN_SCENE self)) ∧
  (ObjectManipThorPPO.train_task_sampler_args self pi P devices seeds det σ
     = (σ', inr res) →
   scene_period res = Some PManual ∧ max_tasks res = None) ∧
  (ObjectNavThorA2C.train_task_sampler_args self pi P devices seeds det σ
     = (σ', inr res) →
   scene_period res = Some (PEvery ObjectNavThorA2C.SCENE_PERIOD) ∧
   max_tasks res = None).
Proof.
  intros counted.
  assert (Hcount : ∀ sc k,
    (bind (_get_sampler_args_for_scene_split self sc pi P seeds det)
       (λ r, let r := set_scene_period (PEvery k) r in
             bind (len (scenes r))
               (λ n, ObjectManipThorPPO.attach_env_args self pi devices
                       (set_max_tasks (k * n) r))) σ = (σ', inr res) ∨
     bind (_get_sampler_args_for_scene_split self sc pi P seeds det)
       (λ r, let r := set_scene_period (PEvery k) r in
             bind (len (scenes r))
               (λ n, ObjectNavThorA2C.attach_x_display devices
                       (set_max_tasks (k * n) r))) σ = (σ', inr res)) →
    counted k).
  { intros sc k H. unfold counted.
    assert (∃ σ1 r1 l, heap σ1 !! scenes r1 = Some (OList l) ∧
              lists_kept σ1 σ' ∧ scenes res = scenes r1 ∧
              scene_period res = Some (PEvery k) ∧
              max_tasks res = Some (k * Z.of_nat (length l)))
      as (σ1 & r1 & l & Hl & Hkept & Hsc & Hp & Hm).
    { destruct H as [H|H].
      - apply bind_inr in H as (σ1 & r1 & Hs & H). cbn zeta in H.
        apply bind_inr in H as (σ2 & n & Hn & H).
        destruct (len_assigned _ _ _ _ _ _ _ _ _ _ _ Hs Hn) as (-> & l & Hl & ->).
        pose proof (keeps_attach_env_args self pi devices
                      (set_max_tasks (k * Z.of_nat (length l))
                         (set_scene_period (PEvery k) r1)) σ1) as Hkept.
        rewrite H in Hkept. apply attach_env_args_inr in H as ->.
        by exists σ1, r1, l.
      - apply bind_inr in H as (σ1 & r1 & Hs & H). cbn zeta in H.
        apply bind_inr in H as (σ2 & n & Hn & H).
        destruct (len_assigned _ _ _ _ _ _ _ _ _ _ _ Hs Hn) as (-> & l & Hl & ->).
        pose proof (keeps_attach_x_display devices
                      (set_max_tasks (k * Z.of_nat (length l))
                         (set_scene_period (PEvery k) r1)) σ1) as Hkept.
        rewrite H in Hkept. apply attach_x_display_inr in H as ->.
        by exists σ1, r1, l. }
    split; [done|]. exists l. split; [|done].
    unfold assigned_scenes. cbv beta iota. rewrite Hsc.
    pose proof (Hkept _ _ Hl) as Hl'. unfold loc in *. by rewrite Hl'. }
  split; [|split; [|split]].
  - apply Hcount.
  - apply Hcount.
  - unfold ObjectManipThorPPO.train_task_sampler_args. intros H.
    apply bind_inr in H as (σ1 & r1 & Hs & H).
    apply split_returns_fields_aux in Hs as [_ Hm].
    apply attach_env_args_inr in H as ->. by rewrite <- Hm.
  - unfold ObjectNavThorA2C.train_task_sampler_args. intros H.
    apply bind_inr in H as (σ1 & r1 & Hs & H).
    apply split_returns_fields_aux in Hs as [_ Hm].
    apply attach_x_display_inr in H as ->. by rewrite <- Hm.
Qed.

Lemma sampling_cadence_witness :
  let self := ObjectManipThorPPO.cls [] in
  ∃ σ' res,
    ObjectManipThorPPO.valid_task_sampler_args self 0 1 (Some []) None false
      ObjectManipThorPPO.initial = (σ', inr res) ∧
    scene_period res = Some (PEvery (VALID_SAMPLES_IN_SCENE self)) ∧
    ∃ l, assigned_scenes (σ', inr res) = Some l ∧
         max_tasks res
           = Some (VALID_SAMPLES_IN_SCENE self * Z.of_nat (length l)).
Proof.
  intros self. eexists _, _. split; [vm_compute; reflexivity|].
  eapply (sampling_cadence self 0 1 (Some []) None false
            ObjectManipThorPPO.initial).
  left. vm_compute. reflexivity.
Defined.

(** ** [machine_params] *)

(** X16.  [machine_params] accepts exactly the modes ["train"], ["valid"] and
    ["test"].  For these it returns at least one process and at most one
    GPU id: in [ObjectManipThorPPO] one process and no GPU; in
    [ObjectNavThorA2C] no GPU exactly when CUDA is unavailable.  For any
    other mode both raise [NotImplementedError]. *)
Theorem machine_params_modes (cuda : bool) (mode : string) :
  (mode = "train" ∨ mode = "valid" ∨ mode = "test" →
     ObjectManipThorPPO.machine_params mode
       = inr {| nprocesses := 1; gpu_ids := [] |} ∧
     ∃ m, ObjectNavThorA2C.machine_params cuda mode = inr m ∧
          1 ≤ nprocesses m ∧ (length (gpu_ids m) ≤ 1)%nat ∧
          (gpu_ids m = [] ↔ cuda = false)) ∧
  (mode ≠ "train" → mode ≠ "valid" → mode ≠ "test" →
     ObjectManipThorPPO.machine_params mode
       = inl (NotImplementedError "mode must be 'train', 'valid', or 'test'.") ∧
     ObjectNavThorA2C.machine_params cuda mode
       = inl (NotImplementedError "mode must be 'train', 'valid', or 'test'.")).
Proof.
  split.
  - intros [-> | [-> | ->]]; (split; [reflexivity|]);
      destruct cuda; eexists; (split; [reflexivity|]); simpl;
      (split; [lia|]); (split; [lia|]); by split.
  - intros H1 H2 H3.
    unfold ObjectManipThorPPO.machine_params, ObjectNavThorA2C.machine_params.
    destruct (String.eqb_spec mode "train"); [done|].
    destruct (String.eqb_spec mode "valid"); [done|].
    by destruct (String.eqb_spec mode "test").
Qed.

Lemma machine_params_modes_witness :
  ObjectManipThorPPO.machine_params "eval"
    = inl (NotImplementedError "mode must be 'train', 'valid', or 'test'.") ∧
  ObjectNavThorA2C.machine_params true "eval"
    = inl (NotImplementedError "mode must be 'train', 'valid', or 'test'.").
Proof. apply (machine_params_modes true "eval"); discriminate. Defined.

(** ** The classes as configured: one scene per mode *)

(** A scene list with a single scene: every process of any positive number
    of processes below [2^31] is given that scene. *)
Lemma split_single_scene self σ sc x (P i : Z) det :
  heap σ !! sc = Some (OList [x]) →
  0 ≤ i < P → P < 2 ^ 31 →
  ∃ σ' res,
    _get_sampler_args_for_scene_split self sc i P None det σ = (σ', inr res) ∧
    heap σ' !! scenes res = Some (OList [x]).
Proof.
  intros Hl Hi H31.
  assert (∃ σ1 l1 ys, normalize_scenes sc P σ = (σ1, inr l1) ∧
            heap σ1 !! l1 = Some (OList ys) ∧
            Z.of_nat (length ys) = P ∧
            ys !! Z.to_nat i = Some x) as (σ1 & l1 & ys & Hn & Hl1 & Hlen & Hx).
  { destruct (decide (P = 1)) as [->|HP].
    - eexists _, _, _.
      split; [apply (normalize_scenes_fits σ sc [x] 1 Hl); simpl; lia|].
      rewrite heap_emit. split; [done|]. split; [done|].
      by replace i with 0 by lia.
    - destruct (normalize_oversample_entries σ sc [x] (Z.to_nat P) Hl)
        as (σ1 & l1 & ys & Hn & Hl1 & Hlen & Hys); [simpl; lia|lia|].
      rewrite Z2Nat.id in Hn by lia.
      exists σ1, l1, ys. split; [done|]. split; [done|]. split; [lia|].
      rewrite Hys by lia. change (length [x]) with 1%nat.
      by rewrite Nat.mod_1_r. }
  erewrite split_after_normalize; [| exact Hn | exact Hl1 | lia ].
  simpl. eexists _, _. split; [reflexivity|].
  simpl. rewrite lookup_app_r, Nat.sub_diag by lia. simpl.
  rewrite Hlen.
  assert (Hpp : (P | P)) by (exists 1; lia).
  rewrite !boundary_exact by (done || lia).
  rewrite Z.div_same by lia.
  rewrite py_slice_segment by lia.
  replace (Z.to_nat ((i + 1) * 1) - Z.to_nat (i * 1))%nat with 1%nat by lia.
  rewrite Z.mul_1_r. by rewrite (take_one_drop _ _ _ Hx).
Qed.

(** The same for the closing statements of the two classes. *)
Lemma manip_attach_single_scene self σ0 σ1 r env x pi devices :
  heap_extends σ0 σ1 →
  heap σ0 !! ENV_ARGS self = Some (ODict env) →
  heap σ1 !! scenes r = Some (OList [x]) →
  ∃ σ' res,
    ObjectManipThorPPO.attach_env_args self pi (Some devices) r σ1 = (σ', inr res) ∧
    assigned_scenes (σ', inr res) = Some [x] ∧
    x_display (σ', inr res) = Some (display_by_process devices pi).
Proof.
  intros Hext Henv Hl.
  pose proof (heap_extends_lookup _ _ _ _ Hext Henv) as Henv1.
  rewrite (attach_env_args_run _ _ _ _ _ _ Henv1).
  eexists _, _. split; [reflexivity|]. split.
  - unfold assigned_scenes. simpl.
    rewrite lookup_app_l by (by eapply lookup_lt_Some).
    unfold loc in *. by rewrite Hl.
  - unfold x_display, dict_at. simpl.
    rewrite lookup_app_r, Nat.sub_diag by lia. simpl.
    by rewrite lookup_insert_eq.
Qed.

Lemma nav_attach_single_scene self σ0 σ1 r env x devices :
  heap_extends σ0 σ1 →
  heap σ0 !! ENV_ARGS self = Some (ODict env) →
  env_args r = ENV_ARGS self →
  heap σ1 !! scenes r = Some (OList [x]) →
  ∃ σ' res,
    ObjectNavThorA2C.attach_x_display (Some devices) r σ1 = (σ', inr res) ∧
    assigned_scenes (σ', inr res) = Some [x] ∧
    x_display (σ', inr res) = Some (display_first devices).
Proof.
  intros Hext Henv Hr Hl.
  pose proof (heap_extends_lookup _ _ _ _ Hext Henv) as Henv1.
  rewrite <- Hr in Henv1.
  rewrite (attach_x_display_run _ _ _ _ Henv1).
  eexists _, _. split; [reflexivity|]. split.
  - unfold assigned_scenes. simpl.
    rewrite list_lookup_insert_ne; [unfold loc in *; by rewrite Hl|].
    intros Heq. unfold loc in *. rewrite Heq in Henv1. congruence.
  - unfold x_display.
    rewrite dict_at_insert by (by eapply lookup_lt_Some).
    by rewrite lookup_insert_eq.
Qed.

(** With a single scene in the list of its mode and a dictionary as
    [ENV_ARGS], each public method returns for every process index within
    any positive process count below [2^31], and assigns that scene. *)
Lemma methods_single_scene self σ env x (P i : Z) devices det :
  heap σ !! ENV_ARGS self = Some (ODict env) →
  0 ≤ i < P → P < 2 ^ 31 →
  let returns (sc : loc) (m : M sampler_args) (disp : val) :=
    heap σ !! sc = Some (OList [x]) →
    ∃ σ' res, m σ = (σ', inr res) ∧
              assigned_scenes (σ', inr res) = Some [x] ∧
              x_display (σ', inr res) = Some disp in
  returns (TRAIN_SCENES self)
    (ObjectManipThorPPO.train_task_sampler_args self i P (Some devices) None det)
    (display_by_process devices i) ∧
  returns (VALID_SCENES self)
    (ObjectManipThorPPO.valid_task_sampler_args self i P (Some devices) None det)
    (display_by_process devices i) ∧
  returns (TEST_SCENES self)
    (ObjectManipThorPPO.test_task_sampler_args self i P (Some devices) None det)
    (display_by_process devices i) ∧
  returns (TRAIN_SCENES self)
    (ObjectNavThorA2C.train_task_sampler_args self i P (Some devices) None det)
    (display_first devices) ∧
  returns (VALID_SCENES self)
    (ObjectNavThorA2C.valid_task_sampler_args self i P (Some devices) None det)
    (display_first devices) ∧
  returns (TEST_SCENES self)
    (ObjectNavThorA2C.test_task_sampler_args self i P (Some devices) None det)
    (display_first devices).
Proof.
  intros Henv Hi H31 returns. unfold returns.
  repeat split; intros Hl.
  all: destruct (split_single_scene self σ _ x P i det Hl Hi H31)
         as (σ1 & r1 & Hs & Hl1).
  all: epose proof (allocates_scene_split self _ i P None det σ) as Hext;
       rewrite Hs in Hext; cbn [fst] in Hext.
  all: pose proof (split_returns_env_args _ _ _ _ _ _ _ _ _ Hs) as Hr.
  all: unfold ObjectManipThorPPO.train_task_sampler_args,
         ObjectManipThorPPO.valid_task_sampler_args,
         ObjectManipThorPPO.test_task_sampler_args,
         ObjectNavThorA2C.train_task_sampler_args,
         ObjectNavThorA2C.valid_task_sampler_args,
         ObjectNavThorA2C.test_task_sampler_args.
  all: rewrite (bind_run _ _ _ _ _ Hs); cbn zeta.
  all: try rewrite (bind_run _ _ _ _ _ (len_run _ _ _ Hl1)).
  all: first [ by eapply manip_attach_single_scene
             | by eapply nav_attach_single_scene ].
Qed.

(** X17.  The process counts and GPU ids of [machine_params] fit the
    sampler-argument methods.  In a state where each mode's scene list
    holds one scene (as both classes define them) and [ENV_ARGS] is a
    dictionary, for the [machine_params] of a mode, every process index
    below its [nprocesses], with its [gpu_ids] as [devices] and no seeds,
    the method of that mode returns a dictionary that assigns the one scene;
    its ["x_display"] is [None] when there is no GPU and otherwise the
    string for the GPU id. *)
Theorem configured_workers_run (self : experiment_config) (σ : state)
    (env : gmap string val) (xt xv xs : string) (cuda det : bool) :
  heap σ !! ENV_ARGS self = Some (ODict env) →
  heap σ !! TRAIN_SCENES self = Some (OList [xt]) →
  heap σ !! VALID_SCENES self = Some (OList [xv]) →
  heap σ !! TEST_SCENES self = Some (OList [xs]) →
  let runs (params : mode_error + machine)
           (method : Z → Z → option (list Z) → option (list Z) → bool → M sampler_args)
           (x : string) :=
    ∃ m, params = inr m ∧
      ∀ i, 0 ≤ i < nprocesses m →
        ∃ σ' res,
          method i (nprocesses m) (Some (gpu_ids m)) None det σ = (σ', inr res) ∧
          assigned_scenes (σ', inr res) = Some [x] ∧
          x_display (σ', inr res) = Some (display_first (gpu_ids m)) in
  runs (ObjectManipThorPPO.machine_params "train")
       (ObjectManipThorPPO.train_task_sampler_args self) xt ∧
  runs (ObjectManipThorPPO.machine_params "valid")
       (ObjectManipThorPPO.valid_task_sampler_args self) xv ∧
  runs (ObjectManipThorPPO.machine_params "test")
       (ObjectManipThorPPO.test_task_sampler_args self) xs ∧
  runs (ObjectNavThorA2C.machine_params cuda "train")
       (ObjectNavThorA2C.train_task_sampler_args self) xt ∧
  runs (ObjectNavThorA2C.machine_params cuda "valid")
       (ObjectNavThorA2C.valid_task_sampler_args self) xv ∧
  runs (ObjectNavThorA2C.machine_params cuda "test")
       (ObjectNavThorA2C.test_task_sampler_args self) xs.
Proof.
  intros Henv Ht Hv Hs runs. unfold runs.
  repeat split; eexists; (split; [reflexivity|]); intros i Hi.
  - destruct (methods_single_scene self σ env xt 1 i [] det Henv Hi)
      as (H & _); [lia|]. by apply H.
  - destruct (methods_single_scene self σ env xv 1 i [] det Henv Hi)
      as (_ & H & _); [lia|]. by apply H.
  - destruct (methods_single_scene self σ env xs 1 i [] det Henv Hi)
      as (_ & _ & H & _); [lia|]. by apply H.
  - destruct (methods_single_scene self σ env xt _ i
                (if negb cuda then [] else [0]) det Henv Hi)
      as (_ & _ & _ & H & _); [destruct cuda; simpl; lia|]. by apply H.
  - destruct (methods_single_scene self σ env xv 1 i
                (if negb cuda then [] else [1]) det Henv Hi)
      as (_ & _ & _ & _ & H & _); [lia|]. by apply H.
  - destruct (methods_single_scene self σ env xs 1 i
                (if negb cuda then [] else [0]) det Henv Hi)
      as (_ & _ & _ & _ & _ & H); [lia|]. by apply H.
Qed.

Lemma configured_workers_run_witness :
  let self := ObjectNavThorA2C.cls [] in
  let σ := ObjectNavThorA2C.initial in
  heap σ !! TRAIN_SCENES self = Some (OList ["FloorPlan1_physics"]) ∧
  ∃ m, ObjectNavThorA2C.machine_params true "train" = inr m ∧
    ∀ i, 0 ≤ i < nprocesses m →
      ∃ σ' res,
        ObjectNavThorA2C.train_task_sampler_args self i (nprocesses m)
          (Some (gpu_ids m)) None false σ = (σ', inr res) ∧
        assigned_scenes (σ', inr res) = Some ["FloorPlan1_physics"] ∧
        x_display (σ', inr res) = Some (display_first (gpu_ids m)).
Proof.
  intros self σ. split; [reflexivity|].
  eapply (configured_workers_run self σ _ "FloorPlan1_physics"
            "FloorPlan1_physics" "FloorPlan1_physics" true false);
    reflexivity.
Defined.
